(** * The SurfaceFlinger shader-program cache

    A shallow embedding of [RenderEngine/ProgramCache.cpp] and
    [RenderEngine/Description.cpp]: the bit-packed [Key], [computeKey],
    the two shader-text generators, the cache with its priming loop, and
    the per-draw uniform protocol of [useProgram] and [changeUniform].

    Conventions.
    - [uint32_t] values are [Z] in [0, 2^32); the only wrap-arounds of the
      code ([~mask] in [Key::set], [keyVal++] in [primeCache]) are written
      out.
    - [GLclampf]/[GLfloat] values are IEEE binary32 numbers, as
      [spec_float] of the Standard Library.
    - [String8] is [string]; the [Formatter] is a record with the source's
      two members.
    - The cache ([KeyedVector<Key, Program*>]) is a [gmap] from keys to
      program pointers; programs live in a heap indexed by allocation
      order, so that "the same instance" is pointer equality.
    - OpenGL calls are recorded in a trace. *)

From Stdlib Require Import ZArith Bool List Ascii String Lia Btauto.
From Stdlib Require Import Floats.SpecFloat.
From stdpp Require Import base option gmap strings list.

Local Open Scope Z_scope.

(* ================================================================== *)
(** ** Key (ProgramCache.h) *)
(* ================================================================== *)

(** Modelled from the spec: the enumerators of [ProgramCache::Key]
    (declared in ProgramCache.h, which is not part of the sources at
    hand).  The spec describes the key as a fixed-width bitmask
    partitioned into disjoint fields, each a small enum packed into a
    reserved bit range; the numeric values are left open, so they are a
    parameter of the development. *)
Record KeyLayout : Type := {
  BLEND_PREMULT : Z;       BLEND_NORMAL : Z;        BLEND_MASK : Z;
  OPACITY_OPAQUE : Z;      OPACITY_TRANSLUCENT : Z; OPACITY_MASK : Z;
  PLANE_ALPHA_LT_ONE : Z;  PLANE_ALPHA_EQ_ONE : Z;  PLANE_ALPHA_MASK : Z;
  TEXTURE_OFF : Z;  TEXTURE_EXT : Z;  TEXTURE_2D : Z;  TEXTURE_MASK : Z;
  COLOR_MATRIX_OFF : Z;    COLOR_MATRIX_ON : Z;     COLOR_MATRIX_MASK : Z;
  WIDE_GAMUT_OFF : Z;      WIDE_GAMUT_ON : Z;       WIDE_GAMUT_MASK : Z;
  BLUR_OFF : Z;            BLUR_ON : Z;             BLUR_MASK : Z;
  FIRSTAPP_FALSE : Z;      FIRSTAPP_TRUE : Z;       FIRSTAPP_MASK : Z
}.

(** [typedef uint32_t key_t]: a key is its packed word. *)
Abbreviation Key := Z (only parsing).

Definition UINT32_MAX : Z := 4294967295.

(** Modelled from the spec: the default constructor of [Key]
    (ProgramCache.h), the word with no field set. *)
Definition Key_new : Z := 0.

(** [~mask] on a [uint32_t]. *)
Definition not32 (mask : Z) : Z := Z.lnot mask mod 2 ^ 32.

(** A field is a mask within 32 bits together with enumerators that lie
    inside the mask. *)
Definition mask_ok (m : Z) : bool := (0 <=? m) && (m <=? UINT32_MAX).
Definition value_in (m v : Z) : bool := Z.land v m =? v.
Definition field2_ok (m v0 v1 : Z) : bool :=
  mask_ok m && value_in m v0 && value_in m v1 && negb (v0 =? v1).
Definition field3_ok (m v0 v1 v2 : Z) : bool :=
  mask_ok m && value_in m v0 && value_in m v1 && value_in m v2 &&
  negb (v0 =? v1) && negb (v0 =? v2) && negb (v1 =? v2).

Definition disjoint (m1 m2 : Z) : bool := Z.land m1 m2 =? 0.

Fixpoint pairwise_disjoint (ms : list Z) : bool :=
  match ms with
  | [] => true
  | m :: rest => forallb (disjoint m) rest && pairwise_disjoint rest
  end.

Section WithLayout.

Variable L : KeyLayout.

(** The masks of all eight fields. *)
Definition all_masks : list Z :=
  [ TEXTURE_MASK L; PLANE_ALPHA_MASK L; BLEND_MASK L; OPACITY_MASK L;
    COLOR_MATRIX_MASK L; WIDE_GAMUT_MASK L; BLUR_MASK L; FIRSTAPP_MASK L ].

(** The layout is the one the spec describes: every enumerator inside
    its field, the enumerators of a field distinct, the fields disjoint. *)
Definition layout_wf : bool :=
  field3_ok (TEXTURE_MASK L) (TEXTURE_OFF L) (TEXTURE_EXT L) (TEXTURE_2D L) &&
  field2_ok (PLANE_ALPHA_MASK L) (PLANE_ALPHA_EQ_ONE L) (PLANE_ALPHA_LT_ONE L) &&
  field2_ok (BLEND_MASK L) (BLEND_NORMAL L) (BLEND_PREMULT L) &&
  field2_ok (OPACITY_MASK L) (OPACITY_TRANSLUCENT L) (OPACITY_OPAQUE L) &&
  field2_ok (COLOR_MATRIX_MASK L) (COLOR_MATRIX_OFF L) (COLOR_MATRIX_ON L) &&
  field2_ok (WIDE_GAMUT_MASK L) (WIDE_GAMUT_OFF L) (WIDE_GAMUT_ON L) &&
  field2_ok (BLUR_MASK L) (BLUR_OFF L) (BLUR_ON L) &&
  field2_ok (FIRSTAPP_MASK L) (FIRSTAPP_FALSE L) (FIRSTAPP_TRUE L) &&
  pairwise_disjoint all_masks.

(** Modelled from the spec: [Key::set] (ProgramCache.h), "clears the bits
    of mask in the packed word and ORs in value; returns self". *)
Definition set (k : Key) (mask value : Z) : Key :=
  Z.lor (Z.land k (not32 mask)) value.

(** Modelled from the spec: the accessors of [Key] (ProgramCache.h),
    "pure bit extraction". *)
Definition getTextureTarget (k : Key) : Z := Z.land k (TEXTURE_MASK L).
Definition isTexturing (k : Key) : bool :=
  negb (Z.land k (TEXTURE_MASK L) =? TEXTURE_OFF L).
Definition isPremultiplied (k : Key) : bool :=
  Z.land k (BLEND_MASK L) =? BLEND_PREMULT L.
Definition isOpaque (k : Key) : bool :=
  Z.land k (OPACITY_MASK L) =? OPACITY_OPAQUE L.
Definition hasPlaneAlpha (k : Key) : bool :=
  Z.land k (PLANE_ALPHA_MASK L) =? PLANE_ALPHA_LT_ONE L.
Definition hasColorMatrix (k : Key) : bool :=
  Z.land k (COLOR_MATRIX_MASK L) =? COLOR_MATRIX_ON L.
Definition isWideGamut (k : Key) : bool :=
  Z.land k (WIDE_GAMUT_MASK L) =? WIDE_GAMUT_ON L.
Definition isBlur (k : Key) : bool :=
  Z.land k (BLUR_MASK L) =? BLUR_ON L.
Definition firstAppField (k : Key) : Z :=
  Z.land k (FIRSTAPP_MASK L).

End WithLayout.

(* ================================================================== *)
(** ** Description (Description.cpp) *)
(* ================================================================== *)

(** [GLclampf], [GLfloat]: IEEE binary32. *)
Definition GLfloat : Type := spec_float.

(** Canonical binary32 encodings of the literals the code uses. *)
Definition f32_0 : GLfloat := S754_zero false.
Definition f32_1 : GLfloat := S754_finite false 8388608 (-23).
Definition f32_2 : GLfloat := S754_finite false 8388608 (-22).
Definition f32_3 : GLfloat := S754_finite false 12582912 (-22).
Definition f32_4 : GLfloat := S754_finite false 8388608 (-21).
Definition f32_5 : GLfloat := S754_finite false 10485760 (-21).
Definition f32_half : GLfloat := S754_finite false 8388608 (-24).

Record vec4 : Type := { vx : GLfloat; vy : GLfloat; vz : GLfloat; vw : GLfloat }.

(** [mat4], column major. *)
Record mat4 : Type := { col0 : vec4; col1 : vec4; col2 : vec4; col3 : vec4 }.

(** [const mat4 identity;]: the default-constructed matrix. *)
Definition mat4_identity : mat4 :=
  {| col0 := {| vx := f32_1; vy := f32_0; vz := f32_0; vw := f32_0 |};
     col1 := {| vx := f32_0; vy := f32_1; vz := f32_0; vw := f32_0 |};
     col2 := {| vx := f32_0; vy := f32_0; vz := f32_1; vw := f32_0 |};
     col3 := {| vx := f32_0; vy := f32_0; vz := f32_0; vw := f32_1 |} |}.

Definition vec4_eqb (a b : vec4) : bool :=
  SFeqb (vx a) (vx b) && SFeqb (vy a) (vy b) &&
  SFeqb (vz a) (vz b) && SFeqb (vw a) (vw b).

(** [operator==] on matrices compares the entries as floats. *)
Definition mat4_eqb (a b : mat4) : bool :=
  vec4_eqb (col0 a) (col0 b) && vec4_eqb (col1 a) (col1 b) &&
  vec4_eqb (col2 a) (col2 b) && vec4_eqb (col3 a) (col3 b).

(** [GLenum] texture targets of the GLES2 headers. *)
Definition GL_TEXTURE_2D : Z := 3553.             (* 0x0DE1 *)
Definition GL_TEXTURE_EXTERNAL_OES : Z := 36197.  (* 0x8D65 *)

(** The part of [Texture] the cache reads. *)
Record Texture : Type := {
  mTextureName : Z;
  mTextureTarget : Z;
  mWidth : Z;
  mHeight : Z
}.

(** The members of [Description] that the two translation units name. *)
Record Description : Type := {
  mPlaneAlpha : GLfloat;
  mPremultipliedAlpha : bool;
  mOpaque : bool;
  mTextureEnabled : bool;
  mTexture : Texture;
  mColor : vec4;
  mProjectionMatrix : mat4;
  mColorMatrixEnabled : bool;
  mColorMatrix : mat4;
  mIsWideGamut : bool;
  mBlur : bool;
  mFirstApp : bool;
  blurnum : Z;
  hwWidth : Z;
  hwHeight : Z;
  sx : GLfloat;
  bx : GLfloat;
  sy : GLfloat;
  by_ : GLfloat
}.

(** [Description::Description()].  [pre] is the object before the
    constructor body runs: what the body does not assign keeps the value
    it has there (indeterminate for the members of scalar type). *)
Definition Description_ctor (pre : Description) : Description :=
  {| mPlaneAlpha := f32_1;
     mPremultipliedAlpha := false;
     mOpaque := true;
     mTextureEnabled := false;
     mTexture := mTexture pre;
     mColor := {| vx := f32_0; vy := f32_0; vz := f32_0; vw := f32_0 |};
     mProjectionMatrix := mProjectionMatrix pre;
     mColorMatrixEnabled := false;
     mColorMatrix := mColorMatrix pre;
     mIsWideGamut := mIsWideGamut pre;
     mBlur := mBlur pre;
     mFirstApp := mFirstApp pre;
     blurnum := blurnum pre;
     hwWidth := hwWidth pre;
     hwHeight := hwHeight pre;
     sx := sx pre; bx := bx pre; sy := sy pre; by_ := by_ pre |}.

Definition setPlaneAlpha (planeAlpha : GLfloat) (d : Description) : Description :=
  {| mPlaneAlpha := planeAlpha;
     mPremultipliedAlpha := mPremultipliedAlpha d; mOpaque := mOpaque d;
     mTextureEnabled := mTextureEnabled d; mTexture := mTexture d;
     mColor := mColor d; mProjectionMatrix := mProjectionMatrix d;
     mColorMatrixEnabled := mColorMatrixEnabled d; mColorMatrix := mColorMatrix d;
     mIsWideGamut := mIsWideGamut d; mBlur := mBlur d; mFirstApp := mFirstApp d;
     blurnum := blurnum d; hwWidth := hwWidth d; hwHeight := hwHeight d;
     sx := sx d; bx := bx d; sy := sy d; by_ := by_ d |}.

Definition setPremultipliedAlpha (premultipliedAlpha : bool) (d : Description) : Description :=
  {| mPlaneAlpha := mPlaneAlpha d;
     mPremultipliedAlpha := premultipliedAlpha; mOpaque := mOpaque d;
     mTextureEnabled := mTextureEnabled d; mTexture := mTexture d;
     mColor := mColor d; mProjectionMatrix := mProjectionMatrix d;
     mColorMatrixEnabled := mColorMatrixEnabled d; mColorMatrix := mColorMatrix d;
     mIsWideGamut := mIsWideGamut d; mBlur := mBlur d; mFirstApp := mFirstApp d;
     blurnum := blurnum d; hwWidth := hwWidth d; hwHeight := hwHeight d;
     sx := sx d; bx := bx d; sy := sy d; by_ := by_ d |}.

Definition setOpaque (opaque : bool) (d : Description) : Description :=
  {| mPlaneAlpha := mPlaneAlpha d;
     mPremultipliedAlpha := mPremultipliedAlpha d; mOpaque := opaque;
     mTextureEnabled := mTextureEnabled d; mTexture := mTexture d;
     mColor := mColor d; mProjectionMatrix := mProjectionMatrix d;
     mColorMatrixEnabled := mColorMatrixEnabled d; mColorMatrix := mColorMatrix d;
     mIsWideGamut := mIsWideGamut d; mBlur := mBlur d; mFirstApp := mFirstApp d;
     blurnum := blurnum d; hwWidth := hwWidth d; hwHeight := hwHeight d;
     sx := sx d; bx := bx d; sy := sy d; by_ := by_ d |}.

Definition setBlur (blur : bool) (d : Description) : Description :=
  {| mPlaneAlpha := mPlaneAlpha d;
     mPremultipliedAlpha := mPremultipliedAlpha d; mOpaque := mOpaque d;
     mTextureEnabled := mTextureEnabled d; mTexture := mTexture d;
     mColor := mColor d; mProjectionMatrix := mProjectionMatrix d;
     mColorMatrixEnabled := mColorMatrixEnabled d; mColorMatrix := mColorMatrix d;
     mIsWideGamut := mIsWideGamut d; mBlur := blur; mFirstApp := mFirstApp d;
     blurnum := blurnum d; hwWidth := hwWidth d; hwHeight := hwHeight d;
     sx := sx d; bx := bx d; sy := sy d; by_ := by_ d |}.

Definition setFirstApp (firstApp : bool) (d : Description) : Description :=
  {| mPlaneAlpha := mPlaneAlpha d;
     mPremultipliedAlpha := mPremultipliedAlpha d; mOpaque := mOpaque d;
     mTextureEnabled := mTextureEnabled d; mTexture := mTexture d;
     mColor := mColor d; mProjectionMatrix := mProjectionMatrix d;
     mColorMatrixEnabled := mColorMatrixEnabled d; mColorMatrix := mColorMatrix d;
     mIsWideGamut := mIsWideGamut d; mBlur := mBlur d; mFirstApp := firstApp;
     blurnum := blurnum d; hwWidth := hwWidth d; hwHeight := hwHeight d;
     sx := sx d; bx := bx d; sy := sy d; by_ := by_ d |}.

Definition setTexture (texture : Texture) (d : Description) : Description :=
  {| mPlaneAlpha := mPlaneAlpha d;
     mPremultipliedAlpha := mPremultipliedAlpha d; mOpaque := mOpaque d;
     mTextureEnabled := true; mTexture := texture;
     mColor := mColor d; mProjectionMatrix := mProjectionMatrix d;
     mColorMatrixEnabled := mColorMatrixEnabled d; mColorMatrix := mColorMatrix d;
     mIsWideGamut := mIsWideGamut d; mBlur := mBlur d; mFirstApp := mFirstApp d;
     blurnum := blurnum d; hwWidth := hwWidth d; hwHeight := hwHeight d;
     sx := sx d; bx := bx d; sy := sy d; by_ := by_ d |}.

Definition disableTexture (d : Description) : Description :=
  {| mPlaneAlpha := mPlaneAlpha d;
     mPremultipliedAlpha := mPremultipliedAlpha d; mOpaque := mOpaque d;
     mTextureEnabled := false; mTexture := mTexture d;
     mColor := mColor d; mProjectionMatrix := mProjectionMatrix d;
     mColorMatrixEnabled := mColorMatrixEnabled d; mColorMatrix := mColorMatrix d;
     mIsWideGamut := mIsWideGamut d; mBlur := mBlur d; mFirstApp := mFirstApp d;
     blurnum := blurnum d; hwWidth := hwWidth d; hwHeight := hwHeight d;
     sx := sx d; bx := bx d; sy := sy d; by_ := by_ d |}.

Definition setColor (red green blue alpha : GLfloat) (d : Description) : Description :=
  {| mPlaneAlpha := mPlaneAlpha d;
     mPremultipliedAlpha := mPremultipliedAlpha d; mOpaque := mOpaque d;
     mTextureEnabled := mTextureEnabled d; mTexture := mTexture d;
     mColor := {| vx := red; vy := green; vz := blue; vw := alpha |};
     mProjectionMatrix := mProjectionMatrix d;
     mColorMatrixEnabled := mColorMatrixEnabled d; mColorMatrix := mColorMatrix d;
     mIsWideGamut := mIsWideGamut d; mBlur := mBlur d; mFirstApp := mFirstApp d;
     blurnum := blurnum d; hwWidth := hwWidth d; hwHeight := hwHeight d;
     sx := sx d; bx := bx d; sy := sy d; by_ := by_ d |}.

Definition setProjectionMatrix (mtx : mat4) (d : Description) : Description :=
  {| mPlaneAlpha := mPlaneAlpha d;
     mPremultipliedAlpha := mPremultipliedAlpha d; mOpaque := mOpaque d;
     mTextureEnabled := mTextureEnabled d; mTexture := mTexture d;
     mColor := mColor d; mProjectionMatrix := mtx;
     mColorMatrixEnabled := mColorMatrixEnabled d; mColorMatrix := mColorMatrix d;
     mIsWideGamut := mIsWideGamut d; mBlur := mBlur d; mFirstApp := mFirstApp d;
     blurnum := blurnum d; hwWidth := hwWidth d; hwHeight := hwHeight d;
     sx := sx d; bx := bx d; sy := sy d; by_ := by_ d |}.

(** [mColorMatrixEnabled = (mtx != identity)]. *)
Definition setColorMatrix (mtx : mat4) (d : Description) : Description :=
  {| mPlaneAlpha := mPlaneAlpha d;
     mPremultipliedAlpha := mPremultipliedAlpha d; mOpaque := mOpaque d;
     mTextureEnabled := mTextureEnabled d; mTexture := mTexture d;
     mColor := mColor d; mProjectionMatrix := mProjectionMatrix d;
     mColorMatrixEnabled := negb (mat4_eqb mtx mat4_identity);
     mColorMatrix := mtx;
     mIsWideGamut := mIsWideGamut d; mBlur := mBlur d; mFirstApp := mFirstApp d;
     blurnum := blurnum d; hwWidth := hwWidth d; hwHeight := hwHeight d;
     sx := sx d; bx := bx d; sy := sy d; by_ := by_ d |}.

Definition getColorMatrix (d : Description) : mat4 := mColorMatrix d.

Definition setWideGamut (wideGamut : bool) (d : Description) : Description :=
  {| mPlaneAlpha := mPlaneAlpha d;
     mPremultipliedAlpha := mPremultipliedAlpha d; mOpaque := mOpaque d;
     mTextureEnabled := mTextureEnabled d; mTexture := mTexture d;
     mColor := mColor d; mProjectionMatrix := mProjectionMatrix d;
     mColorMatrixEnabled := mColorMatrixEnabled d; mColorMatrix := mColorMatrix d;
     mIsWideGamut := wideGamut; mBlur := mBlur d; mFirstApp := mFirstApp d;
     blurnum := blurnum d; hwWidth := hwWidth d; hwHeight := hwHeight d;
     sx := sx d; bx := bx d; sy := sy d; by_ := by_ d |}.

(* ================================================================== *)
(** ** ProgramCache::computeKey *)
(* ================================================================== *)

Section ComputeKey.

Variable L : KeyLayout.

(** The value given to the TEXTURE field. *)
Definition textureNeeds (d : Description) : Z :=
  if negb (mTextureEnabled d) then TEXTURE_OFF L
  else if mTextureTarget (mTexture d) =? GL_TEXTURE_EXTERNAL_OES then TEXTURE_EXT L
  else if mTextureTarget (mTexture d) =? GL_TEXTURE_2D then TEXTURE_2D L
  else TEXTURE_OFF L.

(** [Key needs;] followed by the chain of setters, in the source's
    order. *)
Definition computeKey (d : Description) : Key :=
  let needs := Key_new in
  let needs := set needs (TEXTURE_MASK L) (textureNeeds d) in
  let needs := set needs (PLANE_ALPHA_MASK L)
                 (if SFltb (mPlaneAlpha d) f32_1
                  then PLANE_ALPHA_LT_ONE L else PLANE_ALPHA_EQ_ONE L) in
  let needs := set needs (BLEND_MASK L)
                 (if mPremultipliedAlpha d then BLEND_PREMULT L else BLEND_NORMAL L) in
  let needs := set needs (OPACITY_MASK L)
                 (if mOpaque d then OPACITY_OPAQUE L else OPACITY_TRANSLUCENT L) in
  let needs := set needs (COLOR_MATRIX_MASK L)
                 (if mColorMatrixEnabled d then COLOR_MATRIX_ON L else COLOR_MATRIX_OFF L) in
  let needs := set needs (WIDE_GAMUT_MASK L)
                 (if mIsWideGamut d then WIDE_GAMUT_ON L else WIDE_GAMUT_OFF L) in
  let needs := set needs (BLUR_MASK L)
                 (if mBlur d then BLUR_ON L else BLUR_OFF L) in
  let needs := set needs (FIRSTAPP_MASK L)
                 (if mFirstApp d then FIRSTAPP_TRUE L else FIRSTAPP_FALSE L) in
  needs.

End ComputeKey.

(* ================================================================== *)
(** ** Formatter *)
(* ================================================================== *)

Local Open Scope string_scope.
Local Open Scope Z_scope.
Local Open Scope list_scope.

Definition endl : string := String (ascii_of_nat 10) EmptyString.

Record Formatter : Type := { mString : string; mIndent : Z }.

(** [Formatter() : mIndent(0)], with an empty [String8]. *)
Definition Formatter_new : Formatter := {| mString := ""; mIndent := 0 |}.

Definition getString (f : Formatter) : string := mString f.

(** The loop [for (i = 0; i < mIndent; i++) mString.append("    ")]. *)
Fixpoint append_indent (n : nat) (s : string) : string :=
  match n with
  | O => s
  | S n' => append_indent n' (s +:+ "    ")
  end.

(** [operator <<] on a C string: indentation, the text, a newline. *)
Definition put (out : Formatter) (text : string) : Formatter :=
  {| mString := append_indent (Z.to_nat (mIndent out)) (mString out) +:+ text +:+ endl;
     mIndent := mIndent out |}.

Definition indent (f : Formatter) : Formatter :=
  {| mString := mString f; mIndent := mIndent f + 1 |}.

Definition dedent (f : Formatter) : Formatter :=
  {| mString := mString f; mIndent := mIndent f - 1 |}.

Notation "f << s" := (put f s) (at level 50, left associativity).

(** [if (c) { f << ...; }] *)
Definition when (c : bool) (body : Formatter -> Formatter) (f : Formatter) : Formatter :=
  if c then body f else f.

(* ================================================================== *)
(** ** Shader text *)
(* ================================================================== *)

(** The two raw string literals of [generateFragmentShader]. *)
Definition wide_gamut_helpers : string :=
"
                  float OETF_sRGB(const float linear) {
                      return linear <= 0.0031308 ?
                              linear * 12.92 : (pow(linear, 1.0 / 2.4) * 1.055) - 0.055;
                  }

                  vec3 OETF_sRGB(const vec3 linear) {
                      return vec3(OETF_sRGB(linear.r), OETF_sRGB(linear.g), OETF_sRGB(linear.b));
                  }

                  vec3 OETF_scRGB(const vec3 linear) {
                      return sign(linear.rgb) * OETF_sRGB(abs(linear.rgb));
                  }

                  float EOTF_sRGB(float srgb) {
                      return srgb <= 0.04045 ? srgb / 12.92 : pow((srgb + 0.055) / 1.055, 2.4);
                  }

                  vec3 EOTF_sRGB(const vec3 srgb) {
                      return vec3(EOTF_sRGB(srgb.r), EOTF_sRGB(srgb.g), EOTF_sRGB(srgb.b));
                  }

                  vec3 EOTF_scRGB(const vec3 srgb) {
                      return sign(srgb.rgb) * EOTF_sRGB(abs(srgb.rgb));
                  }
            ".

Definition passthrough_helpers : string :=
"
                  vec3 OETF_scRGB(const vec3 linear) {
                      return linear;
                  }

                  vec3 EOTF_scRGB(const vec3 srgb) {
                      return srgb;
                  }
            ".

Definition extension_line : string :=
  "#extension GL_OES_EGL_image_external : require".
Definition unpremultiply_line : string :=
  "gl_FragColor.rgb = gl_FragColor.rgb / (gl_FragColor.a + 0.0019);".
Definition color_matrix_line : string :=
  "vec4 transformed = colorMatrix * vec4(EOTF_scRGB(gl_FragColor.rgb), 1);".
Definition premultiply_line : string :=
  "gl_FragColor.rgb = gl_FragColor.rgb * (gl_FragColor.a + 0.0019);".
Definition main_line : string := "void main(void) {".

(** The tests that the generators make on a key, each evaluated once. *)
Record KeyTests : Type := {
  targetIsExt : bool;       (* needs.getTextureTarget() == Key::TEXTURE_EXT *)
  targetIs2D : bool;        (* needs.getTextureTarget() == Key::TEXTURE_2D *)
  targetIsOff : bool;       (* needs.getTextureTarget() == Key::TEXTURE_OFF *)
  texturing : bool;         (* needs.isTexturing() *)
  planeAlpha : bool;        (* needs.hasPlaneAlpha() *)
  colorMatrix : bool;       (* needs.hasColorMatrix() *)
  wideGamut : bool;         (* needs.isWideGamut() *)
  blur : bool;              (* needs.isBlur() *)
  opaque : bool;            (* needs.isOpaque() *)
  premultiplied : bool      (* needs.isPremultiplied() *)
}.

Definition keyTests (L : KeyLayout) (needs : Key) : KeyTests :=
  {| targetIsExt := (getTextureTarget L needs =? TEXTURE_EXT L);
     targetIs2D := (getTextureTarget L needs =? TEXTURE_2D L);
     targetIsOff := (getTextureTarget L needs =? TEXTURE_OFF L);
     texturing := isTexturing L needs;
     planeAlpha := hasPlaneAlpha L needs;
     colorMatrix := hasColorMatrix L needs;
     wideGamut := isWideGamut L needs;
     blur := isBlur L needs;
     opaque := isOpaque L needs;
     premultiplied := isPremultiplied L needs |}.

(** The body of [generateVertexShader]. *)
Definition vertexShaderText (needs : KeyTests) : string :=
  let vs := Formatter_new in
  let vs := when (texturing needs) (fun vs =>
              vs << "attribute vec4 texCoords;"
                 << "varying vec2 outTexCoords;") vs in
  let vs := indent (vs << "attribute vec4 position;"
                       << "uniform mat4 projection;"
                       << "uniform mat4 texture;"
                       << "void main(void) {")
               << "gl_Position = projection * position;" in
  let vs := when (texturing needs) (fun vs =>
              vs << "outTexCoords = (texture * texCoords).st;") vs in
  let vs := dedent vs << "}" in
  getString vs.

(** The body of [generateFragmentShader]. *)
Definition fragmentShaderText (needs : KeyTests) : string :=
  let fs := Formatter_new in
  let fs := when (targetIsExt needs) (fun fs =>
              fs << extension_line) fs in
  let fs := fs << "precision mediump float;" in
  let fs :=
    if targetIsExt needs then
      fs << "uniform samplerExternalOES sampler;"
         << "varying vec2 outTexCoords;"
    else if targetIs2D needs then
      fs << "uniform sampler2D sampler;"
         << "varying vec2 outTexCoords;"
    else if targetIsOff needs then
      fs << "uniform vec4 color;"
    else fs in
  let fs := when (planeAlpha needs) (fun fs =>
              fs << "uniform float alphaPlane;") fs in
  let fs := when (colorMatrix needs) (fun fs =>
              fs << "uniform mat4 colorMatrix;") fs in
  let fs := when (colorMatrix needs) (fun fs =>
              if wideGamut needs
              then fs << wide_gamut_helpers
              else fs << passthrough_helpers) fs in
  let fs := fs << "uniform int rWidth;" in
  let fs := fs << "uniform int rHeight;" in
  let fs := when (blur needs) (fun fs =>
              fs << "uniform float iterator;"
                 << "uniform float saturation;"
                 << "uniform float sx;"
                 << "uniform float bx;"
                 << "uniform float sy;"
                 << "uniform float by;") fs in
  let fs := indent (fs << main_line) in
  let fs :=
    if texturing needs
    then fs << "gl_FragColor = texture2D(sampler, outTexCoords);"
    else fs << "gl_FragColor = color;" in
  let fs := when (blur needs) (fun fs =>
              fs << "vec2 resolution = vec2(1.0f / float(rWidth), 1.0f / float(rHeight));"
                 << "vec2 pixelSize = resolution * 4.0f;"
                 << "vec2 halfPixelSize = pixelSize / 2.0f;"
                 << "vec2 dUV = (pixelSize.xy * vec2(iterator, iterator)) + halfPixelSize.xy;"
                 << "vec3 cOut, cOut0, cOut1, cOut2, cOut3, cOut4;"
                 << "float x1, y1, x2, y2;"
                 << "float set = 0.45f;"
                 << "x1 = outTexCoords.x - dUV.x;"
                 << "x2 = outTexCoords.x + dUV.x;"
                 << "y1 = outTexCoords.y - dUV.y;"
                 << "y2 = outTexCoords.y + dUV.y;"
                 << "if(x1 < sx) x1 = outTexCoords.x;"
                 << "if(x2 > bx) x2 = outTexCoords.x;"
                 << "if(y1 < sy) y1 = outTexCoords.y;"
                 << "if(y2 > by) y2 = outTexCoords.y;"
                 << "cOut = texture2D(sampler, outTexCoords).xyz;"
                 << "cOut1 = texture2D(sampler, vec2(x1, y1)).xyz;"
                 << "cOut2 = texture2D(sampler, vec2(x1, y2)).xyz;"
                 << "cOut3 = texture2D(sampler, vec2(x2, y1)).xyz;"
                 << "cOut4 = texture2D(sampler, vec2(x2, y2)).xyz;"
                 << "cOut  = cOut + cOut1 + cOut2 + cOut3 + cOut4;"
                 << "cOut *= 0.2f;"
                 << "const vec3 W = vec3(0.2125, 0.7154, 0.0721);"
                 << "vec3 intensity = vec3(dot(cOut.rgb, W));"
                 << "cOut.rgb = mix(intensity, cOut.rgb, saturation);"
                 << "gl_FragColor = vec4(cOut.xyz, 1.0f);") fs in
  let fs := when (opaque needs) (fun fs =>
              fs << "gl_FragColor.a = 1.0;") fs in
  let fs := when (planeAlpha needs) (fun fs =>
              if premultiplied needs
              then fs << "gl_FragColor *= alphaPlane;"
              else fs << "gl_FragColor.a *= alphaPlane;") fs in
  let fs := when (colorMatrix needs) (fun fs =>
              let fs := when (negb (opaque needs) && premultiplied needs)
                          (fun fs => fs << unpremultiply_line) fs in
              let fs := fs << color_matrix_line in
              let fs := fs << "gl_FragColor.rgb = OETF_scRGB(transformed.rgb);" in
              let fs := when (negb (opaque needs) && premultiplied needs)
                          (fun fs => fs << premultiply_line) fs in
              fs) fs in
  let fs := dedent fs << "}" in
  getString fs.

Definition generateVertexShader (L : KeyLayout) (needs : Key) : string :=
  vertexShaderText (keyTests L needs).

Definition generateFragmentShader (L : KeyLayout) (needs : Key) : string :=
  fragmentShaderText (keyTests L needs).

(* ================================================================== *)
(** ** Programs, the GL trace and the cache *)
(* ================================================================== *)

(** What a [Program] object holds after its constructor has compiled and
    linked the two texts; [prog_valid] is what [isValid()] reports. *)
Record Program : Type := {
  prog_needs : Key;
  prog_vs : string;
  prog_fs : string;
  prog_valid : bool
}.

(** [Program*]: the position of the object in allocation order. *)
Abbreviation ProgramPtr := nat (only parsing).

(** The calls that reach the graphics context.  A uniform is named by
    the string given to [getUniform] on the program it belongs to. *)
Inductive GLCall : Type :=
| ProgramUse (p : ProgramPtr)
| ProgramSetUniforms (p : ProgramPtr) (d : Description)
| Uniform1i (p : ProgramPtr) (name : string) (v : Z)
| Uniform1f (p : ProgramPtr) (name : string) (v : GLfloat).

Record ProgramCache : Type := {
  mCache : gmap Z ProgramPtr;      (* Key -> Program*, absent = NULL *)
  programs : list Program;         (* every object made by [new Program] *)
  glCalls : list GLCall            (* calls issued so far, oldest first *)
}.

Definition emptyCache : ProgramCache :=
  {| mCache := ∅; programs := []; glCalls := [] |}.

(** [mCache.valueFor(needs)] *)
Definition valueFor (st : ProgramCache) (needs : Key) : option ProgramPtr :=
  mCache st !! needs.

(** [mCache.add(needs, program)] *)
Definition add (needs : Key) (program : ProgramPtr) (st : ProgramCache) : ProgramCache :=
  {| mCache := <[needs := program]> (mCache st);
     programs := programs st;
     glCalls := glCalls st |}.

(** [program->isValid()].  Every pointer the cache hands out is that of
    an object in [programs]. *)
Definition isValid (st : ProgramCache) (program : ProgramPtr) : bool :=
  match programs st !! program with
  | Some p => prog_valid p
  | None => false
  end.

Definition issue (calls : list GLCall) (st : ProgramCache) : ProgramCache :=
  {| mCache := mCache st;
     programs := programs st;
     glCalls := glCalls st ++ calls |}.

(** The [if]/[else if] chain of [useProgram] on [description.blurnum]. *)
Definition blurTaps (program : ProgramPtr) (blurnum : Z) : list GLCall :=
  if blurnum =? 1 then
    [Uniform1f program "iterator" f32_0; Uniform1f program "saturation" f32_1]
  else if blurnum =? 2 then
    [Uniform1f program "iterator" f32_1; Uniform1f program "saturation" f32_1]
  else if blurnum =? 3 then
    [Uniform1f program "iterator" f32_2; Uniform1f program "saturation" f32_1]
  else if blurnum =? 4 then
    [Uniform1f program "iterator" f32_3; Uniform1f program "saturation" f32_1]
  else if blurnum =? 5 then
    [Uniform1f program "iterator" f32_4; Uniform1f program "saturation" f32_1]
  else if blurnum =? 6 then
    [Uniform1f program "iterator" f32_4; Uniform1f program "saturation" f32_1]
  else if blurnum =? 7 then
    [Uniform1f program "iterator" f32_5; Uniform1f program "saturation" f32_2]
  else [].

Section Cache.

Variable L : KeyLayout.

(** The graphics driver behind [Program::Program]: whether compiling and
    linking the two texts succeeds, given the number of programs built
    before. *)
Variable glLink : nat -> string -> string -> bool.

(** [generateProgram]: [new Program(needs, vs, fs)]. *)
Definition generateProgram (needs : Key) (st : ProgramCache) : ProgramPtr * ProgramCache :=
  let vs := generateVertexShader L needs in
  let fs := generateFragmentShader L needs in
  let program := length (programs st) in
  (program,
   {| mCache := mCache st;
      programs := programs st ++
        [{| prog_needs := needs; prog_vs := vs; prog_fs := fs;
            prog_valid := glLink (length (programs st)) vs fs |}];
      glCalls := glCalls st |}).

(** [keyMask] of [primeCache]. *)
Definition keyMask : Z :=
  Z.lor (Z.lor (Z.lor (BLEND_MASK L) (OPACITY_MASK L)) (PLANE_ALPHA_MASK L))
        (TEXTURE_MASK L).

(** One iteration of the loop of [primeCache]. *)
Definition primeBody (keyVal : Z) (st : ProgramCache) : ProgramCache :=
  let shaderKey := set Key_new keyMask keyVal in
  let tex := getTextureTarget L shaderKey in
  if negb (tex =? TEXTURE_OFF L) && negb (tex =? TEXTURE_EXT L) &&
     negb (tex =? TEXTURE_2D L)
  then st
  else
    match valueFor st shaderKey with
    | Some _ => st
    | None =>
        let '(program, st) := generateProgram shaderKey st in
        add shaderKey program st
    end.

(** [for (uint32_t keyVal = 0; keyVal <= keyMask; keyVal++)], with the
    increment wrapping at 32 bits.  [None] when the iterations allowed
    do not reach the exit. *)
Fixpoint primeLoop (fuel : nat) (keyVal : Z) (st : ProgramCache) : option ProgramCache :=
  if keyVal <=? keyMask then
    match fuel with
    | O => None
    | S fuel' => primeLoop fuel' ((keyVal + 1) mod 2 ^ 32) (primeBody keyVal st)
    end
  else Some st.

(** [primeCache].  The shader count and the timing only feed a log line.
    [keyMask + 1] iterations are what a loop that exits needs. *)
Definition primeCache (st : ProgramCache) : option ProgramCache :=
  primeLoop (Z.to_nat (keyMask + 1)) 0 st.

(** [ProgramCache::ProgramCache()] *)
Definition ProgramCache_ctor : option ProgramCache := primeCache emptyCache.

(** [changeUniform] *)
Definition changeUniform (d : Description) (st : ProgramCache) : ProgramCache :=
  let needs := computeKey L d in
  match valueFor st needs with
  | None => st
  | Some program =>
      if negb (isBlur L needs) then st
      else if Z.rem (blurnum d) 2 =? 0 then
        issue [Uniform1i program "blurnum1" (blurnum d);
               Uniform1i program "blurnum2" 0] st
      else
        issue [Uniform1i program "blurnum2" (blurnum d);
               Uniform1i program "blurnum1" 0] st
  end.

(** The calls of [useProgram] once the program is known to be valid. *)
Definition drawCalls (needs : Key) (program : ProgramPtr) (d : Description) : list GLCall :=
  [ProgramUse program;
   ProgramSetUniforms program d;
   Uniform1i program "rHeight" (hwHeight d);
   Uniform1i program "rWidth" (hwWidth d)] ++
  (if isBlur L needs then
     [Uniform1f program "sx" (sx d);
      Uniform1f program "bx" (bx d);
      Uniform1f program "sy" (sy d);
      Uniform1f program "by" (by_ d)] ++
     blurTaps program (blurnum d)
   else []).

(** The look-up of [useProgram], generating on a miss. *)
Definition lookupOrGenerate (needs : Key) (st : ProgramCache) : ProgramPtr * ProgramCache :=
  match valueFor st needs with
  | Some program => (program, st)
  | None =>
      let '(program, st) := generateProgram needs st in
      (program, add needs program st)
  end.

(** [useProgram] *)
Definition useProgram (d : Description) (st : ProgramCache) : ProgramCache :=
  let needs := computeKey L d in
  let '(program, st) := lookupOrGenerate needs st in
  if isValid st program
  then issue (drawCalls needs program d) st
  else st.

(** The entry points of the cache, and a sequence of calls on it. *)
Inductive Call : Type :=
| CallPrimeCache
| CallUseProgram (d : Description)
| CallChangeUniform (d : Description).

Definition call (c : Call) (st : ProgramCache) : option ProgramCache :=
  match c with
  | CallPrimeCache => primeCache st
  | CallUseProgram d => Some (useProgram d st)
  | CallChangeUniform d => Some (changeUniform d st)
  end.

Fixpoint run (cs : list Call) (st : ProgramCache) : option ProgramCache :=
  match cs with
  | [] => Some st
  | c :: cs' =>
      match call c st with
      | Some st' => run cs' st'
      | None => None
      end
  end.

End Cache.


(* ================================================================== *)
(** ** Reading shader text *)
(* ================================================================== *)

(** [sub] occurs in [s]. *)
Definition contains (sub s : string) : bool :=
  match String.index 0 sub s with
  | Some _ => true
  | None => false
  end.

(** Both occur in [s], and the first occurrence of [a] starts before the
    first occurrence of [b]. *)
Definition occurs_before (a b s : string) : bool :=
  match String.index 0 a s, String.index 0 b s with
  | Some i, Some j => (i <? j)%nat
  | _, _ => false
  end.

(** The lines of a text: the pieces between newline characters. *)
Fixpoint split_lines (s cur : string) : list string :=
  match s with
  | EmptyString => [cur]
  | String c s' =>
      if Ascii.eqb c (ascii_of_nat 10)
      then cur :: split_lines s' ""
      else split_lines s' (cur +:+ String c "")
  end.

Definition is_ident_char (c : ascii) : bool :=
  let n := N_of_ascii c in
  ((48 <=? n) && (n <=? 57) || (65 <=? n) && (n <=? 90) ||
   (97 <=? n) && (n <=? 122) || (n =? 95))%N.

Definition flush (cur : string) : list string :=
  match cur with
  | EmptyString => []
  | _ => [cur]
  end.

(** The maximal runs of letters, digits and underscores of a line. *)
Fixpoint tokenize (s cur : string) : list string :=
  match s with
  | EmptyString => flush cur
  | String c s' =>
      if is_ident_char c
      then tokenize s' (cur +:+ String c "")
      else flush cur ++ tokenize s' ""
  end.

Definition tokens (line : string) : list string := tokenize line "".

(** The lines before the entry point, and the lines of its body. *)
Fixpoint split_at_main (ls : list string) : list string * list string :=
  match ls with
  | [] => ([], [])
  | l :: rest =>
      if String.eqb l main_line then ([], rest)
      else let '(h, b) := split_at_main rest in (l :: h, b)
  end.

(** A shader text read as token lines: those before the entry point and
    those of its body. *)
Record ShaderText : Type := {
  headerLines : list (list string);
  bodyLines : list (list string)
}.

Definition parse (text : string) : ShaderText :=
  let '(h, b) := split_at_main (split_lines text "") in
  {| headerLines := map tokens h; bodyLines := map tokens b |}.

(** The line refers to the identifier. *)
Definition uses (id : string) (line : list string) : bool :=
  existsb (String.eqb id) line.

(** The line is [uniform T id;] or [varying T id;], or opens the
    definition of a function: [float] or [vec3], the name, then the
    parameters. *)
Definition declares (id : string) (line : list string) : bool :=
  match line with
  | [q; _; x] =>
      (String.eqb q "uniform" || String.eqb q "varying") && String.eqb x id
  | ty :: f :: _ :: _ :: _ =>
      (String.eqb ty "float" || String.eqb ty "vec3") && String.eqb f id
  | _ => false
  end.

(** If the body of the entry point refers to [id], a line before the
    entry point declares it. *)
Definition declared_before_use (id : string) (t : ShaderText) : bool :=
  implb (existsb (uses id) (bodyLines t)) (existsb (declares id) (headerLines t)).

(** The names a fragment shader of this generator can take from outside
    its entry point: the uniforms and varyings, and the two helpers. *)
Definition shader_globals : list string :=
  [ "sampler"; "outTexCoords"; "color"; "alphaPlane"; "colorMatrix";
    "rWidth"; "rHeight"; "iterator"; "saturation"; "sx"; "bx"; "sy"; "by";
    "EOTF_scRGB"; "OETF_scRGB" ]%string.

(** Every such name that the entry point uses is declared before it. *)
Definition well_formed (text : string) : bool :=
  let t := parse text in
  forallb (fun id => declared_before_use id t) shader_globals.

(* ================================================================== *)
(** ** Statements of the specification *)
(* ================================================================== *)

(** The blur tap table as the specification lists it:
    index to (iterator, saturation). *)
Definition blurTable (index : Z) : option (GLfloat * GLfloat) :=
  match index with
  | 1 => Some (f32_0, f32_1)
  | 2 => Some (f32_1, f32_1)
  | 3 => Some (f32_2, f32_1)
  | 4 => Some (f32_3, f32_1)
  | 5 => Some (f32_4, f32_1)
  | 6 => Some (f32_4, f32_1)
  | 7 => Some (f32_5, f32_2)
  | _ => None
  end.

(** What decides the shape of the shader: the projection of a
    description that [computeKey] looks at. *)
Inductive TextureKind : Type := TexOff | TexExternal | Tex2D.

Definition textureKind (d : Description) : TextureKind :=
  if negb (mTextureEnabled d) then TexOff
  else if mTextureTarget (mTexture d) =? GL_TEXTURE_EXTERNAL_OES then TexExternal
  else if mTextureTarget (mTexture d) =? GL_TEXTURE_2D then Tex2D
  else TexOff.

Record Shape : Type := {
  shapeTexture : TextureKind;
  shapePlaneAlphaBelowOne : bool;
  shapePremultiplied : bool;
  shapeOpaque : bool;
  shapeColorMatrix : bool;
  shapeWideGamut : bool;
  shapeBlur : bool;
  shapeFirstApp : bool
}.

Definition shapeOf (d : Description) : Shape :=
  {| shapeTexture := textureKind d;
     shapePlaneAlphaBelowOne := SFltb (mPlaneAlpha d) f32_1;
     shapePremultiplied := mPremultipliedAlpha d;
     shapeOpaque := mOpaque d;
     shapeColorMatrix := mColorMatrixEnabled d;
     shapeWideGamut := mIsWideGamut d;
     shapeBlur := mBlur d;
     shapeFirstApp := mFirstApp d |}.

(** Two descriptions differ at most in the scalar fields that the
    specification names for [computeKey]: plane alpha, blur strength,
    colour matrix, window bounds, width and height, flat colour,
    projection matrix. *)
Definition differ_only_in_scalars (d1 d2 : Description) : Prop :=
  mPremultipliedAlpha d1 = mPremultipliedAlpha d2 /\
  mOpaque d1 = mOpaque d2 /\
  mTextureEnabled d1 = mTextureEnabled d2 /\
  mTexture d1 = mTexture d2 /\
  mColorMatrixEnabled d1 = mColorMatrixEnabled d2 /\
  mIsWideGamut d1 = mIsWideGamut d2 /\
  mBlur d1 = mBlur d2 /\
  mFirstApp d1 = mFirstApp d2.

(** Whether the loop body of [primeCache] keeps [v]: its texture target
    is one of the three enumerators. *)
Definition target_known (L : KeyLayout) (v : Z) : bool :=
  let tex := getTextureTarget L v in
  (tex =? TEXTURE_OFF L) || (tex =? TEXTURE_EXT L) || (tex =? TEXTURE_2D L).

(** The primed fields occupy the low-order bits of the key: [keyMask] is
    of the form [2^n - 1]. *)
Definition primed_fields_low (L : KeyLayout) : bool :=
  keyMask L =? Z.ones (Z.log2 (keyMask L + 1)).

(* ================================================================== *)
(** ** Sample data *)
(* ================================================================== *)

(** A layout that meets [layout_wf], on which the definitions can be
    run: one bit per two-valued field and two bits for the texture
    target, packed from bit 0 in the order of declaration. *)
Definition sample_layout : KeyLayout := {|
  BLEND_PREMULT := 1;       BLEND_NORMAL := 0;        BLEND_MASK := 1;
  OPACITY_OPAQUE := 2;      OPACITY_TRANSLUCENT := 0; OPACITY_MASK := 2;
  PLANE_ALPHA_LT_ONE := 4;  PLANE_ALPHA_EQ_ONE := 0;  PLANE_ALPHA_MASK := 4;
  TEXTURE_OFF := 0;  TEXTURE_EXT := 8;  TEXTURE_2D := 16;  TEXTURE_MASK := 24;
  COLOR_MATRIX_OFF := 0;    COLOR_MATRIX_ON := 32;    COLOR_MATRIX_MASK := 32;
  WIDE_GAMUT_OFF := 0;      WIDE_GAMUT_ON := 64;      WIDE_GAMUT_MASK := 64;
  BLUR_OFF := 0;            BLUR_ON := 128;           BLUR_MASK := 128;
  FIRSTAPP_FALSE := 0;      FIRSTAPP_TRUE := 256;     FIRSTAPP_MASK := 256
|}.

Definition sample_texture : Texture :=
  {| mTextureName := 1; mTextureTarget := GL_TEXTURE_2D;
     mWidth := 64; mHeight := 64 |}.

(** An object about to be constructed whose scalar members hold zeros. *)
Definition zeroed : Description :=
  {| mPlaneAlpha := f32_0; mPremultipliedAlpha := false; mOpaque := false;
     mTextureEnabled := false;
     mTexture := {| mTextureName := 0; mTextureTarget := GL_TEXTURE_2D;
                    mWidth := 0; mHeight := 0 |};
     mColor := {| vx := f32_0; vy := f32_0; vz := f32_0; vw := f32_0 |};
     mProjectionMatrix := mat4_identity;
     mColorMatrixEnabled := false; mColorMatrix := mat4_identity;
     mIsWideGamut := false; mBlur := false; mFirstApp := false;
     blurnum := 0; hwWidth := 0; hwHeight := 0;
     sx := f32_0; bx := f32_0; sy := f32_0; by_ := f32_0 |}.

(** A default-constructed description. *)
Definition plain : Description := Description_ctor zeroed.

(** [plain] and [half_alpha] differ only in the magnitude of plane alpha. *)
Definition half_alpha : Description := setPlaneAlpha f32_half plain.

(** A flat-colour draw with blur switched on. *)
Definition flat_blur : Description := setBlur true plain.

(** A textured draw with blur on, tap index 7, over the unit window. *)
Definition blurred7 : Description :=
  let d := setBlur true (setTexture sample_texture plain) in
  {| mPlaneAlpha := mPlaneAlpha d;
     mPremultipliedAlpha := mPremultipliedAlpha d; mOpaque := mOpaque d;
     mTextureEnabled := mTextureEnabled d; mTexture := mTexture d;
     mColor := mColor d; mProjectionMatrix := mProjectionMatrix d;
     mColorMatrixEnabled := mColorMatrixEnabled d; mColorMatrix := mColorMatrix d;
     mIsWideGamut := mIsWideGamut d; mBlur := mBlur d; mFirstApp := mFirstApp d;
     blurnum := 7; hwWidth := hwWidth d; hwHeight := hwHeight d;
     sx := f32_0; bx := f32_1; sy := f32_0; by_ := f32_1 |}.

(** A driver that links every program, and one that links none. *)
Definition link_all : nat -> string -> string -> bool := fun _ _ _ => true.
Definition link_none : nat -> string -> string -> bool := fun _ _ _ => false.

(* ================================================================== *)
(** ** Order on cache states *)
(* ================================================================== *)

(** [st'] keeps every entry of [st], every program object of [st] at its
    address, and every call already issued. *)
Definition grows (st st' : ProgramCache) : Prop :=
  (forall k p, mCache st !! k = Some p -> mCache st' !! k = Some p) /\
  (exists more, programs st' = programs st ++ more) /\
  (exists calls, glCalls st' = glCalls st ++ calls).

(** Every entry of the cache points to a program object built for its
    key from the generated texts. *)
Definition entries_built (L : KeyLayout) (st : ProgramCache) : Prop :=
  forall k p, mCache st !! k = Some p ->
    exists prog, programs st !! p = Some prog /\
      prog_needs prog = k /\
      prog_vs prog = generateVertexShader L k /\
      prog_fs prog = generateFragmentShader L k.

(* ================================================================== *)
(** ** Checks over the outcomes of the key tests *)
(* ================================================================== *)

(** A property of the text that holds for each of the finitely many
    outcomes of the key tests holds for every key. *)
Definition allb (f : bool -> bool) : bool := f true && f false.

Definition all_tests (check : KeyTests -> bool) : bool :=
  allb (fun e => allb (fun t2 => allb (fun o => allb (fun tx =>
  allb (fun pa => allb (fun cm => allb (fun wg => allb (fun bl =>
  allb (fun op => allb (fun pm =>
    check {| targetIsExt := e; targetIs2D := t2; targetIsOff := o;
             texturing := tx; planeAlpha := pa; colorMatrix := cm;
             wideGamut := wg; blur := bl; opaque := op;
             premultiplied := pm |})))))))))).

(** The capability declaration follows the EXTERNAL test; each helper
    block follows the colour-matrix test and its side of the wide-gamut
    test. *)
Definition check_helper_blocks (t : KeyTests) : bool :=
  let fs := fragmentShaderText t in
  Bool.eqb (contains extension_line fs) (targetIsExt t) &&
  Bool.eqb (contains wide_gamut_helpers fs) (colorMatrix t && wideGamut t) &&
  Bool.eqb (contains passthrough_helpers fs) (colorMatrix t && negb (wideGamut t)).

(** With the colour matrix on: translucent and premultiplied brackets the
    multiply; opaque has neither statement. *)
Definition check_bracketing (t : KeyTests) : bool :=
  let fs := fragmentShaderText t in
  implb (colorMatrix t && premultiplied t && negb (opaque t))
        (occurs_before unpremultiply_line color_matrix_line fs &&
         occurs_before color_matrix_line premultiply_line fs) &&
  implb (colorMatrix t && opaque t)
        (negb (contains unpremultiply_line fs) &&
         negb (contains premultiply_line fs)).

(** The texture tests of a key whose target is one of the three
    enumerators: exactly one target test holds, and [isTexturing] is
    the negation of the OFF test. *)
Definition target_tests_ok (t : KeyTests) : bool :=
  (if targetIsExt t then negb (targetIs2D t) && negb (targetIsOff t)
   else if targetIs2D t then negb (targetIsOff t) else targetIsOff t) &&
  Bool.eqb (texturing t) (negb (targetIsOff t)).

(** For such a key the text is well formed except with blur on and the
    texture off, where [sampler] and [outTexCoords] are used without a
    declaration. *)
Definition check_declarations (t : KeyTests) : bool :=
  if target_tests_ok t then
    let fs := fragmentShaderText t in
    let p := parse fs in
    Bool.eqb (well_formed fs) (negb (blur t && targetIsOff t)) &&
    implb (blur t && targetIsOff t)
          (negb (declared_before_use "sampler" p) &&
           negb (declared_before_use "outTexCoords" p) &&
           declared_before_use "color" p)
  else true.

(* ================================================================== *)
(** ** Further readings of shader text *)
(* ================================================================== *)

(** [n] levels of indentation. *)
Fixpoint indentation (n : nat) : string :=
  match n with
  | O => ""
  | S n' => "    " +:+ indentation n'
  end.

(** The line is [q T id;] for the storage qualifier [q]. *)
Definition declares_as (q id : string) (line : list string) : bool :=
  match line with
  | [q'; _; x] => String.eqb q' q && String.eqb x id
  | _ => false
  end.

Definition declares_uniform (id : string) (t : ShaderText) : bool :=
  existsb (declares_as "uniform" id) (headerLines t).

Definition declares_varying (id : string) (t : ShaderText) : bool :=
  existsb (declares_as "varying" id) (headerLines t).

Definition declares_attribute (id : string) (t : ShaderText) : bool :=
  existsb (declares_as "attribute" id) (headerLines t).

(** The names of the uniforms a text declares, in order. *)
Definition declared_uniforms (t : ShaderText) : list string :=
  omap (fun line =>
          match line with
          | [q; _; x] => if String.eqb q "uniform" then Some x else None
          | _ => None
          end) (headerLines t).

(** The names given to [getUniform] by a sequence of calls. *)
Definition uniform_name (c : GLCall) : option string :=
  match c with
  | Uniform1i _ name _ => Some name
  | Uniform1f _ name _ => Some name
  | _ => None
  end.

Definition uniform_names (calls : list GLCall) : list string :=
  omap uniform_name calls.

(** The uniforms a fragment shader is expected to declare, by the tests
    of its key. *)
Definition expected_uniforms (t : KeyTests) : list string :=
  (if targetIsExt t then ["sampler"]
   else if targetIs2D t then ["sampler"]
   else if targetIsOff t then ["color"] else []) ++
  (if planeAlpha t then ["alphaPlane"] else []) ++
  (if colorMatrix t then ["colorMatrix"] else []) ++
  ["rWidth"; "rHeight"] ++
  (if blur t then ["iterator"; "saturation"; "sx"; "bx"; "sy"; "by"] else []).


(** The declared uniforms are the expected ones. *)
Definition check_uniform_interface (t : KeyTests) : bool :=
  bool_decide (declared_uniforms (parse (fragmentShaderText t)) =
               expected_uniforms t).

(** No text has [blurnum1] or [blurnum2] in it. *)
Definition check_blur_numbers (t : KeyTests) : bool :=
  let fs := fragmentShaderText t in
  let vs := vertexShaderText t in
  negb (contains "blurnum1" fs) && negb (contains "blurnum1" vs) &&
  negb (contains "blurnum2" fs) && negb (contains "blurnum2" vs).


(** The texture tests of a key whose target is none of the three
    enumerators. *)
Definition target_tests_unknown (t : KeyTests) : bool :=
  negb (targetIsExt t) && negb (targetIs2D t) && negb (targetIsOff t) &&
  texturing t.

(** The two stages agree on the varying for a known target and disagree
    for an unknown one, whose fragment text declares no colour source. *)
Definition check_varying (t : KeyTests) : bool :=
  let fs := fragmentShaderText t in
  let pf := parse fs in
  let pv := parse (vertexShaderText t) in
  (if target_tests_ok t then
     Bool.eqb (declares_varying "outTexCoords" pv) (texturing t) &&
     Bool.eqb (declares_varying "outTexCoords" pf) (texturing t)
   else true) &&
  (if target_tests_unknown t then
     declares_varying "outTexCoords" pv &&
     negb (declares_varying "outTexCoords" pf) &&
     negb (declares_uniform "sampler" pf) &&
     negb (declares_uniform "color" pf) &&
     negb (well_formed fs)
   else true).

(* ================================================================== *)
(** ** Further statements about keys, matrices and cache states *)
(* ================================================================== *)

(** The union of the eight fields. *)
Definition fieldsMask (L : KeyLayout) : Z :=
  Z.lor (keyMask L)
    (Z.lor (Z.lor (Z.lor (COLOR_MATRIX_MASK L) (WIDE_GAMUT_MASK L)) (BLUR_MASK L))
       (FIRSTAPP_MASK L)).

(** The enumerators of the fields left out of priming that stand for
    "off" are the zero word. *)
Definition off_values_zero (L : KeyLayout) : bool :=
  (COLOR_MATRIX_OFF L =? 0) && (WIDE_GAMUT_OFF L =? 0) &&
  (BLUR_OFF L =? 0) && (FIRSTAPP_FALSE L =? 0).

(** A float that is a zero of either sign. *)
Definition is_zero (x : GLfloat) : bool :=
  match x with
  | S754_zero _ => true
  | _ => false
  end.

(** A float that is the binary32 number one. *)
Definition is_one (x : GLfloat) : bool :=
  match x with
  | S754_finite false m e => (m =? 8388608)%positive && (e =? -23)
  | _ => false
  end.

(** The matrix has ones on the diagonal and zeros of either sign
    elsewhere. *)
Definition identity_entries (m : mat4) : bool :=
  is_one (vx (col0 m)) && is_zero (vy (col0 m)) &&
  is_zero (vz (col0 m)) && is_zero (vw (col0 m)) &&
  is_zero (vx (col1 m)) && is_one (vy (col1 m)) &&
  is_zero (vz (col1 m)) && is_zero (vw (col1 m)) &&
  is_zero (vx (col2 m)) && is_zero (vy (col2 m)) &&
  is_one (vz (col2 m)) && is_zero (vw (col2 m)) &&
  is_zero (vx (col3 m)) && is_zero (vy (col3 m)) &&
  is_zero (vz (col3 m)) && is_one (vw (col3 m)).

(** What holds of every state the entry points can reach from the empty
    cache: as many entries as program objects; every entry points to the
    object built for its key, whose validity is the driver's answer at
    its creation; every object is the entry of its own key. *)
Definition cache_consistent (L : KeyLayout)
    (glLink : nat -> string -> string -> bool) (st : ProgramCache) : Prop :=
  size (mCache st) = length (programs st) /\
  (forall k p, mCache st !! k = Some p ->
     exists prog, programs st !! p = Some prog /\
       prog_needs prog = k /\
       prog_vs prog = generateVertexShader L k /\
       prog_fs prog = generateFragmentShader L k /\
       prog_valid prog =
         glLink p (generateVertexShader L k) (generateFragmentShader L k)) /\
  (forall (p : nat) prog, programs st !! p = Some prog ->
     mCache st !! prog_needs prog = Some p).

(* ================================================================== *)
(** * Proofs *)
(** ** Bits *)
(* ================================================================== *)

Lemma testbit_not32 m n :
  0 <= n -> Z.testbit (not32 m) n = (n <? 32) && negb (Z.testbit m n).
Proof.
  intros Hn. unfold not32.
  rewrite Z.testbit_mod_pow2 by lia.
  now rewrite Z.lnot_spec by assumption.
Qed.

Lemma mask_ok_high m n :
  mask_ok m = true -> 32 <= n -> Z.testbit m n = false.
Proof.
  unfold mask_ok, UINT32_MAX. intros H Hn.
  apply andb_true_iff in H as [H0 H1].
  apply Z.leb_le in H0, H1.
  rewrite <- (Z.mod_small m (2 ^ 32)) by lia.
  apply Z.mod_pow2_bits_high. lia.
Qed.

Lemma value_in_bit m v n :
  value_in m v = true -> Z.testbit v n = true -> Z.testbit m n = true.
Proof.
  unfold value_in. intros H Hv. apply Z.eqb_eq in H.
  rewrite <- H, Z.land_spec in Hv.
  now apply andb_true_iff in Hv.
Qed.

Lemma disjoint_bit m1 m2 n :
  disjoint m1 m2 = true -> Z.testbit m1 n = true -> Z.testbit m2 n = false.
Proof.
  unfold disjoint. intros H H1. apply Z.eqb_eq in H.
  apply (f_equal (fun z => Z.testbit z n)) in H.
  rewrite Z.land_spec, H1, Z.bits_0 in H. exact H.
Qed.

Lemma disjoint_sym m1 m2 : disjoint m1 m2 = true -> disjoint m2 m1 = true.
Proof. unfold disjoint. now rewrite Z.land_comm. Qed.

Lemma testbit_set k m v n :
  0 <= n ->
  Z.testbit (set k m v) n =
  Z.testbit k n && ((n <? 32) && negb (Z.testbit m n)) || Z.testbit v n.
Proof.
  intros Hn. unfold set.
  now rewrite Z.lor_spec, Z.land_spec, testbit_not32.
Qed.

(** Reading back the field that was just set. *)
Lemma land_set_same k m v :
  value_in m v = true -> Z.land (set k m v) m = v.
Proof.
  intros Hv. apply Z.bits_inj'. intros n Hn.
  rewrite Z.land_spec, testbit_set by assumption.
  destruct (Z.testbit v n) eqn:Ev.
  - rewrite (value_in_bit _ _ _ Hv Ev). btauto.
  - destruct (Z.testbit m n); btauto.
Qed.

(** Setting a field leaves the disjoint fields alone. *)
Lemma land_set_other k m v m' :
  mask_ok m' = true -> value_in m v = true -> disjoint m m' = true ->
  Z.land (set k m v) m' = Z.land k m'.
Proof.
  intros Hm' Hv Hd. apply Z.bits_inj'. intros n Hn.
  rewrite !Z.land_spec, testbit_set by assumption.
  destruct (Z.testbit m' n) eqn:Em'; [|btauto].
  assert (Hlt : (n <? 32) = true).
  { destruct (Z.ltb_spec n 32); [reflexivity|].
    rewrite (mask_ok_high _ _ Hm') in Em' by assumption. discriminate. }
  assert (Em : Z.testbit m n = false).
  { destruct (Z.testbit m n) eqn:E; [|reflexivity].
    rewrite (disjoint_bit _ _ _ Hd E) in Em'. discriminate. }
  assert (Ev : Z.testbit v n = false).
  { destruct (Z.testbit v n) eqn:E; [|reflexivity].
    rewrite (value_in_bit _ _ _ Hv E) in Em. discriminate. }
  rewrite Hlt, Em, Ev. btauto.
Qed.

Lemma value_in_if m (c : bool) a b :
  value_in m a = true -> value_in m b = true ->
  value_in m (if c then a else b) = true.
Proof. now destruct c. Qed.

(** The facts packed in [layout_wf]. *)
Ltac split_andb H :=
  repeat match type of H with
         | (_ && _) = true =>
             let H1 := fresh "W" in
             let H2 := fresh "W" in
             apply andb_true_iff in H as [H1 H2];
             split_andb H1; split_andb H2
         end.

Ltac wf_facts H :=
  let W := fresh "W" in
  pose proof H as W;
  unfold layout_wf, field3_ok, field2_ok, all_masks in W;
  cbn [pairwise_disjoint forallb] in W;
  split_andb W.

Create HintDb keybits.
#[local] Hint Resolve disjoint_sym value_in_if : keybits.

Section KeyFields.

Variable L : KeyLayout.
Hypothesis WF : layout_wf L = true.

Lemma textureNeeds_in d : value_in (TEXTURE_MASK L) (textureNeeds L d) = true.
Proof.
  wf_facts WF. unfold textureNeeds.
  repeat match goal with |- context [if ?c then _ else _] => destruct c end;
    assumption.
Qed.

Ltac field_of_computeKey :=
  wf_facts WF; unfold computeKey; cbv zeta;
  pose proof textureNeeds_in;
  repeat (rewrite land_set_other by auto with keybits);
  rewrite land_set_same by auto with keybits;
  reflexivity.

Lemma texture_of_computeKey d :
  Z.land (computeKey L d) (TEXTURE_MASK L) = textureNeeds L d.
Proof. field_of_computeKey. Qed.

Lemma planeAlpha_of_computeKey d :
  Z.land (computeKey L d) (PLANE_ALPHA_MASK L) =
  if SFltb (mPlaneAlpha d) f32_1 then PLANE_ALPHA_LT_ONE L else PLANE_ALPHA_EQ_ONE L.
Proof. field_of_computeKey. Qed.

Lemma blend_of_computeKey d :
  Z.land (computeKey L d) (BLEND_MASK L) =
  if mPremultipliedAlpha d then BLEND_PREMULT L else BLEND_NORMAL L.
Proof. field_of_computeKey. Qed.

Lemma opacity_of_computeKey d :
  Z.land (computeKey L d) (OPACITY_MASK L) =
  if mOpaque d then OPACITY_OPAQUE L else OPACITY_TRANSLUCENT L.
Proof. field_of_computeKey. Qed.

Lemma colorMatrix_of_computeKey d :
  Z.land (computeKey L d) (COLOR_MATRIX_MASK L) =
  if mColorMatrixEnabled d then COLOR_MATRIX_ON L else COLOR_MATRIX_OFF L.
Proof. field_of_computeKey. Qed.

Lemma wideGamut_of_computeKey d :
  Z.land (computeKey L d) (WIDE_GAMUT_MASK L) =
  if mIsWideGamut d then WIDE_GAMUT_ON L else WIDE_GAMUT_OFF L.
Proof. field_of_computeKey. Qed.

Lemma blur_of_computeKey d :
  Z.land (computeKey L d) (BLUR_MASK L) =
  if mBlur d then BLUR_ON L else BLUR_OFF L.
Proof. field_of_computeKey. Qed.

Lemma firstApp_of_computeKey d :
  firstAppField L (computeKey L d) =
  if mFirstApp d then FIRSTAPP_TRUE L else FIRSTAPP_FALSE L.
Proof. unfold firstAppField. field_of_computeKey. Qed.

(** The accessors read back what [computeKey] was given. *)

Ltac decide_enum :=
  wf_facts WF;
  repeat match goal with
         | |- context [if ?c then _ else _] => destruct c
         end;
  repeat match goal with
         | H : negb (_ =? _) = true |- _ =>
             apply negb_true_iff, Z.eqb_neq in H
         end;
  try reflexivity;
  first [ apply Z.eqb_eq; congruence
        | apply Z.eqb_neq; congruence
        | rewrite Z.eqb_refl; reflexivity
        | match goal with
          | |- negb (?a =? ?b) = _ =>
              destruct (Z.eqb_spec a b); simpl; congruence
          end ].

Lemma getTextureTarget_computeKey d :
  getTextureTarget L (computeKey L d) = textureNeeds L d.
Proof. apply texture_of_computeKey. Qed.

Lemma hasPlaneAlpha_computeKey d :
  hasPlaneAlpha L (computeKey L d) = SFltb (mPlaneAlpha d) f32_1.
Proof. unfold hasPlaneAlpha. rewrite planeAlpha_of_computeKey. decide_enum. Qed.

Lemma isPremultiplied_computeKey d :
  isPremultiplied L (computeKey L d) = mPremultipliedAlpha d.
Proof. unfold isPremultiplied. rewrite blend_of_computeKey. decide_enum. Qed.

Lemma isOpaque_computeKey d :
  isOpaque L (computeKey L d) = mOpaque d.
Proof. unfold isOpaque. rewrite opacity_of_computeKey. decide_enum. Qed.

Lemma hasColorMatrix_computeKey d :
  hasColorMatrix L (computeKey L d) = mColorMatrixEnabled d.
Proof. unfold hasColorMatrix. rewrite colorMatrix_of_computeKey. decide_enum. Qed.

Lemma isWideGamut_computeKey d :
  isWideGamut L (computeKey L d) = mIsWideGamut d.
Proof. unfold isWideGamut. rewrite wideGamut_of_computeKey. decide_enum. Qed.

Lemma isBlur_computeKey d :
  isBlur L (computeKey L d) = mBlur d.
Proof. unfold isBlur. rewrite blur_of_computeKey. decide_enum. Qed.

Lemma firstApp_computeKey d :
  (firstAppField L (computeKey L d) =? FIRSTAPP_TRUE L) = mFirstApp d.
Proof. rewrite firstApp_of_computeKey. decide_enum. Qed.

Lemma textureNeeds_kind d :
  textureNeeds L d =
  match textureKind d with
  | TexOff => TEXTURE_OFF L
  | TexExternal => TEXTURE_EXT L
  | Tex2D => TEXTURE_2D L
  end.
Proof.
  unfold textureNeeds, textureKind.
  repeat match goal with |- context [if ?c then _ else _] => destruct c end;
    reflexivity.
Qed.

Lemma textureKind_of_needs d1 d2 :
  textureNeeds L d1 = textureNeeds L d2 -> textureKind d1 = textureKind d2.
Proof.
  rewrite !textureNeeds_kind. wf_facts WF.
  repeat match goal with
         | H : negb (_ =? _) = true |- _ =>
             apply negb_true_iff, Z.eqb_neq in H
         end.
  destruct (textureKind d1), (textureKind d2); congruence.
Qed.

Lemma isTexturing_computeKey d :
  isTexturing L (computeKey L d) =
  match textureKind d with TexOff => false | _ => true end.
Proof.
  unfold isTexturing. rewrite texture_of_computeKey, textureNeeds_kind.
  destruct (textureKind d); decide_enum.
Qed.

(** The key is a function of the shape, and an injective one. *)
Lemma computeKey_shape d1 d2 :
  computeKey L d1 = computeKey L d2 <-> shapeOf d1 = shapeOf d2.
Proof.
  split.
  - intros E. unfold shapeOf. f_equal.
    + apply textureKind_of_needs.
      now rewrite <- !getTextureTarget_computeKey, E.
    + now rewrite <- !hasPlaneAlpha_computeKey, E.
    + now rewrite <- !isPremultiplied_computeKey, E.
    + now rewrite <- !isOpaque_computeKey, E.
    + now rewrite <- !hasColorMatrix_computeKey, E.
    + now rewrite <- !isWideGamut_computeKey, E.
    + now rewrite <- !isBlur_computeKey, E.
    + now rewrite <- !firstApp_computeKey, E.
  - intros E. injection E as E1 E2 E3 E4 E5 E6 E7 E8.
    unfold computeKey. rewrite !textureNeeds_kind.
    now rewrite E1, E2, E3, E4, E5, E6, E7, E8.
Qed.

End KeyFields.

(* ================================================================== *)
(** ** computeKey and the scalar fields *)
(* ================================================================== *)

(** C1, as stated, fails: [plain] and [half_alpha] differ only in the
    magnitude of plane alpha, a scalar field, and their keys differ. *)
Lemma C1_plane_alpha_magnitude_changes_key :
  differ_only_in_scalars plain half_alpha /\
  computeKey sample_layout plain <> computeKey sample_layout half_alpha.
Proof.
  split.
  - repeat split.
  - vm_compute. discriminate.
Qed.

(** C1, amended: descriptions that differ only in scalar fields get the
    same key exactly when their plane-alpha values lie on the same side
    of one; the other scalar fields (blur strength, colour-matrix
    entries, window bounds, width and height, flat colour, projection
    matrix) never change the key, and equal descriptions get equal keys.
    Through [setColorMatrix], which also derives the colour-matrix flag,
    two matrices give the same key exactly when both are the identity or
    neither is. *)
Theorem C1_computeKey_scalar_fields (L : KeyLayout) :
  layout_wf L = true ->
  (forall d1 d2 : Description,
     differ_only_in_scalars d1 d2 ->
     (computeKey L d1 = computeKey L d2 <->
      SFltb (mPlaneAlpha d1) f32_1 = SFltb (mPlaneAlpha d2) f32_1)) /\
  (forall (d : Description) (m1 m2 : mat4),
     computeKey L (setColorMatrix m1 d) = computeKey L (setColorMatrix m2 d) <->
     mat4_eqb m1 mat4_identity = mat4_eqb m2 mat4_identity).
Proof.
  intros WF. split.
  - intros d1 d2 (E1 & E2 & E3 & E4 & E5 & E6 & E7 & E8).
    rewrite (computeKey_shape L WF). unfold shapeOf, textureKind.
    rewrite E1, E2, E3, E4, E5, E6, E7, E8.
    split.
    + intros E. now injection E.
    + intros E. now rewrite E.
  - intros d m1 m2.
    rewrite (computeKey_shape L WF). unfold shapeOf, textureKind, setColorMatrix.
    cbn [mTextureEnabled mTexture mPlaneAlpha mPremultipliedAlpha mOpaque
         mColorMatrixEnabled mIsWideGamut mBlur mFirstApp].
    split.
    + intros E. injection E as E.
      destruct (mat4_eqb m1 mat4_identity), (mat4_eqb m2 mat4_identity);
        simpl in E; congruence.
    + intros E. now rewrite E.
Qed.

Lemma C1_computeKey_scalar_fields_witness :
  layout_wf sample_layout = true /\
  differ_only_in_scalars plain (setColor f32_1 f32_half f32_0 f32_1 plain) /\
  computeKey sample_layout plain =
  computeKey sample_layout (setColor f32_1 f32_half f32_0 f32_1 plain).
Proof.
  assert (W : layout_wf sample_layout = true) by reflexivity.
  assert (D : differ_only_in_scalars plain (setColor f32_1 f32_half f32_0 f32_1 plain))
    by (repeat split).
  split; [exact W | split; [exact D |]].
  destruct (C1_computeKey_scalar_fields sample_layout W) as [H _].
  apply (H _ _ D). reflexivity.
Defined.

(* ================================================================== *)
(** ** The fragment shader text *)
(* ================================================================== *)

Lemma allb_spec f : allb f = true -> forall b, f b = true.
Proof.
  unfold allb. intros H b. apply andb_true_iff in H as [Ht Hf].
  now destruct b.
Qed.

Lemma all_tests_spec check :
  all_tests check = true -> forall t, check t = true.
Proof.
  unfold all_tests. intros H [e t2 o tx pa cm wg bl op pm].
  apply allb_spec with (b := e) in H; cbv beta in H.
  apply allb_spec with (b := t2) in H; cbv beta in H.
  apply allb_spec with (b := o) in H; cbv beta in H.
  apply allb_spec with (b := tx) in H; cbv beta in H.
  apply allb_spec with (b := pa) in H; cbv beta in H.
  apply allb_spec with (b := cm) in H; cbv beta in H.
  apply allb_spec with (b := wg) in H; cbv beta in H.
  apply allb_spec with (b := bl) in H; cbv beta in H.
  apply allb_spec with (b := op) in H; cbv beta in H.
  apply allb_spec with (b := pm) in H; cbv beta in H.
  exact H.
Qed.

Lemma helper_blocks_all : all_tests check_helper_blocks = true.
Proof. vm_compute. reflexivity. Qed.

Lemma bracketing_all : all_tests check_bracketing = true.
Proof. vm_compute. reflexivity. Qed.

Lemma declarations_all : all_tests check_declarations = true.
Proof. vm_compute. reflexivity. Qed.

(** C8: the capability declaration is in the text exactly for the
    EXTERNAL target; the wide-gamut helper block exactly with the colour
    matrix on and wide gamut on, the pass-through block exactly with the
    colour matrix on and wide gamut off; so exactly one of the two blocks
    is present exactly when [hasColorMatrix] holds. *)
Theorem C8_extension_and_helper_blocks (L : KeyLayout) (k : Key) :
  (contains extension_line (generateFragmentShader L k) = true <->
   getTextureTarget L k = TEXTURE_EXT L) /\
  contains wide_gamut_helpers (generateFragmentShader L k) =
    hasColorMatrix L k && isWideGamut L k /\
  contains passthrough_helpers (generateFragmentShader L k) =
    hasColorMatrix L k && negb (isWideGamut L k) /\
  xorb (contains wide_gamut_helpers (generateFragmentShader L k))
       (contains passthrough_helpers (generateFragmentShader L k)) =
    hasColorMatrix L k.
Proof.
  pose proof (all_tests_spec _ helper_blocks_all (keyTests L k)) as H.
  unfold check_helper_blocks in H. cbv zeta in H.
  fold (generateFragmentShader L k) in H.
  apply andb_true_iff in H as [H Hp]. apply andb_true_iff in H as [He Hw].
  apply Bool.eqb_prop in He, Hw, Hp. cbn [keyTests targetIsExt colorMatrix wideGamut] in *.
  repeat split.
  - rewrite He. apply Z.eqb_eq.
  - rewrite He. apply Z.eqb_eq.
  - exact Hw.
  - exact Hp.
  - rewrite Hw, Hp. destruct (hasColorMatrix L k), (isWideGamut L k); reflexivity.
Qed.

Lemma opaque_not_translucent L k :
  layout_wf L = true ->
  Z.land k (OPACITY_MASK L) = OPACITY_TRANSLUCENT L -> isOpaque L k = false.
Proof.
  intros WF E. wf_facts WF. unfold isOpaque. rewrite E.
  repeat match goal with
         | H : negb (_ =? _) = true |- _ => apply negb_true_iff in H
         end.
  assumption.
Qed.

(** C3: with COLOR_MATRIX on, a premultiplied translucent key has the
    un-premultiply statement before the colour-matrix multiply and the
    re-premultiply statement after it; an opaque key has neither
    statement. *)
Theorem C3_premultiply_bracketing (L : KeyLayout) (k : Key) :
  layout_wf L = true ->
  Z.land k (COLOR_MATRIX_MASK L) = COLOR_MATRIX_ON L ->
  (Z.land k (BLEND_MASK L) = BLEND_PREMULT L ->
   Z.land k (OPACITY_MASK L) = OPACITY_TRANSLUCENT L ->
   occurs_before unpremultiply_line color_matrix_line
     (generateFragmentShader L k) = true /\
   occurs_before color_matrix_line premultiply_line
     (generateFragmentShader L k) = true) /\
  (Z.land k (OPACITY_MASK L) = OPACITY_OPAQUE L ->
   contains unpremultiply_line (generateFragmentShader L k) = false /\
   contains premultiply_line (generateFragmentShader L k) = false).
Proof.
  intros WF Hcm.
  pose proof (all_tests_spec _ bracketing_all (keyTests L k)) as H.
  unfold check_bracketing in H. cbv zeta in H.
  fold (generateFragmentShader L k) in H.
  cbn [keyTests colorMatrix premultiplied opaque] in H.
  assert (Ecm : hasColorMatrix L k = true)
    by (unfold hasColorMatrix; rewrite Hcm; apply Z.eqb_refl).
  rewrite Ecm in H. apply andb_true_iff in H as [Hb Ho].
  split.
  - intros Hpre Htr.
    assert (Ep : isPremultiplied L k = true)
      by (unfold isPremultiplied; rewrite Hpre; apply Z.eqb_refl).
    rewrite Ep, (opaque_not_translucent L k WF Htr) in Hb. simpl in Hb.
    now apply andb_true_iff in Hb.
  - intros Hop.
    assert (Eo : isOpaque L k = true)
      by (unfold isOpaque; rewrite Hop; apply Z.eqb_refl).
    rewrite Eo in Ho. simpl in Ho.
    apply andb_true_iff in Ho as [H1 H2].
    now apply negb_true_iff in H1, H2.
Qed.

Lemma C3_premultiply_bracketing_witness :
  occurs_before unpremultiply_line color_matrix_line
    (generateFragmentShader sample_layout 33) = true /\
  occurs_before color_matrix_line premultiply_line
    (generateFragmentShader sample_layout 33) = true.
Proof.
  destruct (C3_premultiply_bracketing sample_layout 33 eq_refl eq_refl) as [H _].
  apply H; reflexivity.
Defined.

Lemma target_tests_of_key L k :
  layout_wf L = true ->
  getTextureTarget L k = TEXTURE_OFF L \/
  getTextureTarget L k = TEXTURE_EXT L \/
  getTextureTarget L k = TEXTURE_2D L ->
  target_tests_ok (keyTests L k) = true.
Proof.
  intros WF Ht. wf_facts WF.
  repeat match goal with
         | H : negb (_ =? _) = true |- _ =>
             apply negb_true_iff, Z.eqb_neq in H
         end.
  unfold target_tests_ok, keyTests, isTexturing, getTextureTarget in *.
  cbn [targetIsExt targetIs2D targetIsOff texturing].
  destruct Ht as [E | [E | E]]; rewrite E;
    repeat match goal with
           | |- context [?a =? ?b] =>
               destruct (Z.eqb_spec a b); try congruence
           end; reflexivity.
Qed.

(** C2: for a key whose texture target is one of the three enumerators,
    the text declares every outside name its entry point uses, except
    when blur is on and the texture is off; there [sampler] and
    [outTexCoords] are used by the blur block and declared nowhere, only
    [color] is declared. *)
Theorem C2_declared_before_use_except_flat_blur (L : KeyLayout) (k : Key) :
  layout_wf L = true ->
  getTextureTarget L k = TEXTURE_OFF L \/
  getTextureTarget L k = TEXTURE_EXT L \/
  getTextureTarget L k = TEXTURE_2D L ->
  well_formed (generateFragmentShader L k) =
    negb (isBlur L k && (getTextureTarget L k =? TEXTURE_OFF L)) /\
  (isBlur L k = true -> getTextureTarget L k = TEXTURE_OFF L ->
   declared_before_use "sampler" (parse (generateFragmentShader L k)) = false /\
   declared_before_use "outTexCoords" (parse (generateFragmentShader L k)) = false /\
   declared_before_use "color" (parse (generateFragmentShader L k)) = true).
Proof.
  intros WF Ht.
  pose proof (all_tests_spec _ declarations_all (keyTests L k)) as H.
  unfold check_declarations in H.
  rewrite (target_tests_of_key L k WF Ht) in H. cbv zeta in H.
  fold (generateFragmentShader L k) in H.
  cbn [keyTests blur targetIsOff] in H.
  apply andb_true_iff in H as [Hw Hs]. apply Bool.eqb_prop in Hw.
  split; [exact Hw|].
  intros Hb Hoff. rewrite Hb, Hoff, Z.eqb_refl in Hs. simpl in Hs.
  apply andb_true_iff in Hs as [Hs Hc]. apply andb_true_iff in Hs as [Hs Ho].
  apply negb_true_iff in Hs, Ho. auto.
Qed.

(** The failing input of C2: a default-constructed description with blur
    switched on has no texture; its shader is not well formed. *)
Lemma C2_flat_blur_shader_ill_formed :
  well_formed (generateFragmentShader sample_layout
                 (computeKey sample_layout flat_blur)) = false.
Proof.
  assert (T : getTextureTarget sample_layout (computeKey sample_layout flat_blur) =
              TEXTURE_OFF sample_layout \/
              getTextureTarget sample_layout (computeKey sample_layout flat_blur) =
              TEXTURE_EXT sample_layout \/
              getTextureTarget sample_layout (computeKey sample_layout flat_blur) =
              TEXTURE_2D sample_layout) by (left; reflexivity).
  destruct (C2_declared_before_use_except_flat_blur sample_layout
              (computeKey sample_layout flat_blur) eq_refl T) as [H _].
  rewrite H. reflexivity.
Defined.

(* ================================================================== *)
(** ** The cache only grows *)
(* ================================================================== *)

Lemma grows_refl st : grows st st.
Proof.
  repeat split; [auto | exists [] | exists []]; now rewrite app_nil_r.
Qed.

Lemma grows_trans st1 st2 st3 : grows st1 st2 -> grows st2 st3 -> grows st1 st3.
Proof.
  intros (A1 & [m1 B1] & [c1 C1]) (A2 & [m2 B2] & [c2 C2]).
  repeat split.
  - auto.
  - exists (m1 ++ m2). now rewrite B2, B1, app_assoc.
  - exists (c1 ++ c2). now rewrite C2, C1, app_assoc.
Qed.

Lemma grows_program st st' (p : ProgramPtr) prog :
  grows st st' -> programs st !! p = Some prog -> programs st' !! p = Some prog.
Proof.
  intros (_ & [more E] & _) H. rewrite E. now apply lookup_app_l_Some.
Qed.

Lemma grows_issue calls st : grows st (issue calls st).
Proof.
  repeat split; [auto | exists [] | exists calls];
    [now rewrite app_nil_r | reflexivity].
Qed.

Section CacheProofs.

Variable L : KeyLayout.
Variable glLink : nat -> string -> string -> bool.

Lemma lookupOrGenerate_hit k st p :
  valueFor st k = Some p -> lookupOrGenerate L glLink k st = (p, st).
Proof. unfold lookupOrGenerate. now intros ->. Qed.

(** Generating and adding a program for an absent key. *)
Lemma generate_add_grows k st :
  valueFor st k = None ->
  grows st (add k (generateProgram L glLink k st).1 (generateProgram L glLink k st).2).
Proof.
  intros Hnone. unfold valueFor in Hnone.
  unfold grows, add, generateProgram.
  cbn [fst snd mCache programs glCalls].
  repeat split.
  - intros k' p' H. destruct (decide (k = k')) as [<- | Hne].
    + rewrite Hnone in H. discriminate.
    + now rewrite lookup_insert_ne.
  - eexists. reflexivity.
  - exists []. now rewrite app_nil_r.
Qed.

Lemma lookupOrGenerate_grows k st :
  grows st (lookupOrGenerate L glLink k st).2.
Proof.
  unfold lookupOrGenerate. destruct (valueFor st k) eqn:E.
  - apply grows_refl.
  - pose proof (generate_add_grows k st E) as G.
    destruct (generateProgram L glLink k st). exact G.
Qed.

(** After the look-up the key is in the cache, at the returned address. *)
Lemma lookupOrGenerate_cached k st :
  valueFor (lookupOrGenerate L glLink k st).2 k =
  Some (lookupOrGenerate L glLink k st).1.
Proof.
  unfold lookupOrGenerate. destruct (valueFor st k) eqn:E; [exact E|].
  unfold generateProgram, add, valueFor; cbn [fst snd mCache].
  apply lookup_insert_eq.
Qed.

Lemma useProgram_unfold d st :
  useProgram L glLink d st =
  let r := lookupOrGenerate L glLink (computeKey L d) st in
  if isValid r.2 r.1
  then issue (drawCalls L (computeKey L d) r.1 d) r.2
  else r.2.
Proof.
  unfold useProgram. now destruct (lookupOrGenerate L glLink (computeKey L d) st).
Qed.

Lemma useProgram_grows d st : grows st (useProgram L glLink d st).
Proof.
  rewrite useProgram_unfold. cbv zeta.
  pose proof (lookupOrGenerate_grows (computeKey L d) st) as G.
  destruct (isValid _ _); [|exact G].
  eapply grows_trans; [exact G | apply grows_issue].
Qed.

Lemma changeUniform_grows d st : grows st (changeUniform L d st).
Proof.
  unfold changeUniform.
  destruct (valueFor st (computeKey L d)); [|apply grows_refl].
  destruct (negb _); [apply grows_refl|].
  destruct (_ =? _); apply grows_issue.
Qed.

Lemma primeBody_grows v st : grows st (primeBody L glLink v st).
Proof.
  unfold primeBody. destruct (_ && _); [apply grows_refl|].
  destruct (valueFor st _) eqn:E; [apply grows_refl|].
  pose proof (generate_add_grows _ st E) as G.
  destruct (generateProgram L glLink _ st). exact G.
Qed.

Lemma primeLoop_grows fuel : forall v st st',
  primeLoop L glLink fuel v st = Some st' -> grows st st'.
Proof.
  induction fuel as [|fuel IH]; intros v st st'; cbn.
  - destruct (v <=? keyMask L); [discriminate|].
    intros [= <-]. apply grows_refl.
  - destruct (v <=? keyMask L).
    + intros H. eapply grows_trans; [apply primeBody_grows | eapply IH, H].
    + intros [= <-]. apply grows_refl.
Qed.

Lemma call_grows c st st' : call L glLink c st = Some st' -> grows st st'.
Proof.
  destruct c; cbn.
  - apply primeLoop_grows.
  - intros [= <-]. apply useProgram_grows.
  - intros [= <-]. apply changeUniform_grows.
Qed.

Lemma run_grows cs : forall st st',
  run L glLink cs st = Some st' -> grows st st'.
Proof.
  induction cs as [|c cs IH]; intros st st'; cbn.
  - intros [= <-]. apply grows_refl.
  - destruct (call L glLink c st) eqn:E; [|discriminate].
    intros H. eapply grows_trans; [eapply call_grows, E | eapply IH, H].
Qed.

(** A hit: nothing is generated, the cache is as before, and the calls
    are those of the draw if the program is valid. *)
Lemma useProgram_hit d st p :
  valueFor st (computeKey L d) = Some p ->
  useProgram L glLink d st =
  if isValid st p then issue (drawCalls L (computeKey L d) p d) st else st.
Proof.
  intros H. rewrite useProgram_unfold, (lookupOrGenerate_hit _ _ _ H).
  reflexivity.
Qed.

Lemma useProgram_hit_same d st p :
  valueFor st (computeKey L d) = Some p ->
  mCache (useProgram L glLink d st) = mCache st /\
  programs (useProgram L glLink d st) = programs st.
Proof.
  intros H. rewrite (useProgram_hit _ _ _ H). now destruct (isValid st p).
Qed.

End CacheProofs.

(* ================================================================== *)
(** ** The priming loop *)
(* ================================================================== *)

Lemma mask_ok_range m : mask_ok m = true -> 0 <= m < 2 ^ 32.
Proof.
  unfold mask_ok, UINT32_MAX. intros H.
  apply andb_true_iff in H as [H0 H1]. apply Z.leb_le in H0, H1. lia.
Qed.

Lemma mask_ok_lor a b : mask_ok a = true -> mask_ok b = true -> mask_ok (Z.lor a b) = true.
Proof.
  intros Ha Hb.
  assert (H0 : 0 <= Z.lor a b).
  { apply Z.lor_nonneg. split; [apply (mask_ok_range a Ha) | apply (mask_ok_range b Hb)]. }
  assert (E : Z.lor a b mod 2 ^ 32 = Z.lor a b).
  { apply Z.bits_inj'. intros n Hn.
    rewrite Z.testbit_mod_pow2 by lia.
    destruct (Z.ltb_spec n 32); [reflexivity|].
    now rewrite Z.lor_spec, (mask_ok_high a n Ha), (mask_ok_high b n Hb) by lia. }
  pose proof (Z.mod_pos_bound (Z.lor a b) (2 ^ 32) ltac:(lia)) as B.
  rewrite E in B. unfold mask_ok, UINT32_MAX.
  apply andb_true_iff. split; apply Z.leb_le; lia.
Qed.

Lemma disjoint_lor a b m :
  disjoint a m = true -> disjoint b m = true -> disjoint (Z.lor a b) m = true.
Proof.
  unfold disjoint. intros Ha Hb. apply Z.eqb_eq in Ha, Hb. apply Z.eqb_eq.
  now rewrite Z.land_lor_distr_l, Ha, Hb.
Qed.

Section PrimeLoop.

Variable L : KeyLayout.
Variable glLink : nat -> string -> string -> bool.
Hypothesis WF : layout_wf L = true.

Lemma keyMask_ok : mask_ok (keyMask L) = true.
Proof. wf_facts WF. unfold keyMask. auto using mask_ok_lor. Qed.

(** The fields left out of priming are disjoint from [keyMask]. *)
Lemma keyMask_disjoint m :
  In m [COLOR_MATRIX_MASK L; WIDE_GAMUT_MASK L; BLUR_MASK L; FIRSTAPP_MASK L] ->
  disjoint (keyMask L) m = true.
Proof.
  wf_facts WF. unfold keyMask.
  intros [<- | [<- | [<- | [<- | []]]]];
    repeat apply disjoint_lor; auto with keybits.
Qed.

(** The loop variable cannot wrap: some bit of the word is outside
    [keyMask]. *)
Lemma keyMask_below_max : keyMask L < UINT32_MAX.
Proof.
  pose proof (mask_ok_range _ keyMask_ok) as R.
  assert (N : keyMask L <> UINT32_MAX); [|unfold UINT32_MAX in *; lia].
  intros E.
  pose proof (keyMask_disjoint (COLOR_MATRIX_MASK L) ltac:(cbn; auto)) as D.
  wf_facts WF.
  unfold disjoint in D. apply Z.eqb_eq in D.
  rewrite E, Z.land_comm in D.
  change UINT32_MAX with (Z.ones 32) in D.
  rewrite Z.land_ones in D by lia.
  match goal with
  | H : mask_ok (COLOR_MATRIX_MASK L) = true |- _ =>
      rewrite Z.mod_small in D by (apply (mask_ok_range _ H))
  end.
  repeat match goal with
         | H : value_in (COLOR_MATRIX_MASK L) _ = true |- _ =>
             unfold value_in in H; rewrite D, Z.land_0_r in H;
             apply Z.eqb_eq in H
         end.
  match goal with
  | H : negb (COLOR_MATRIX_OFF L =? COLOR_MATRIX_ON L) = true |- _ =>
      apply negb_true_iff, Z.eqb_neq in H; congruence
  end.
Qed.

(** With enough iterations allowed, the loop is the fold of its body over
    [keyVal, keyMask]. *)
Lemma primeLoop_fold fuel : forall v st,
  0 <= v -> v + Z.of_nat fuel = keyMask L + 1 ->
  primeLoop L glLink fuel v st =
  Some (foldl (fun st v => primeBody L glLink v st) st (seqZ v (Z.of_nat fuel))).
Proof.
  pose proof keyMask_below_max as B. unfold UINT32_MAX in B.
  induction fuel as [|fuel IH]; intros v st Hv Hsum; cbn [primeLoop].
  - destruct (Z.leb_spec v (keyMask L)); [lia | reflexivity].
  - destruct (Z.leb_spec v (keyMask L)); [|lia].
    rewrite Z.mod_small by lia.
    rewrite IH by lia.
    rewrite (seqZ_cons v (Z.of_nat (S fuel))) by lia.
    cbn [foldl]. do 3 f_equal. lia.
Qed.

Lemma primeCache_fold st :
  primeCache L glLink st =
  Some (foldl (fun st v => primeBody L glLink v st) st (seqZ 0 (keyMask L + 1))).
Proof.
  pose proof (mask_ok_range _ keyMask_ok) as R.
  unfold primeCache. rewrite primeLoop_fold by lia.
  now rewrite Z2Nat.id by lia.
Qed.

(** Every call returns. *)
Lemma call_total c st : exists st', call L glLink c st = Some st'.
Proof.
  destruct c; cbn; [rewrite primeCache_fold|..]; eauto.
Qed.

Lemma run_total cs : forall st, exists st', run L glLink cs st = Some st'.
Proof.
  induction cs as [|c cs IH]; intros st; cbn; [eauto|].
  destruct (call_total c st) as [st1 ->]. apply IH.
Qed.

End PrimeLoop.

(* ================================================================== *)
(** ** Lookups, failed links and uniforms *)
(* ================================================================== *)

Lemma lookupOrGenerate_glCalls L glLink k st :
  glCalls (lookupOrGenerate L glLink k st).2 = glCalls st.
Proof.
  unfold lookupOrGenerate. now destruct (valueFor st k).
Qed.

(** C5: once the cache maps a key to a program, then after any further
    calls on the cache the key is still mapped to the same address and
    the object at that address is unchanged; a look-up of the key there
    returns that address without touching the cache, and [useProgram] on
    a description with that key builds no program and leaves the mapping
    as it is.  Every sequence of calls returns. *)
Theorem C5_cached_program_is_kept
    (L : KeyLayout) (glLink : nat -> string -> string -> bool)
    (st : ProgramCache) (k : Key) (p : ProgramPtr) :
  layout_wf L = true ->
  valueFor st k = Some p ->
  forall cs : list Call,
    exists st', run L glLink cs st = Some st' /\
      valueFor st' k = Some p /\
      (forall prog, programs st !! p = Some prog -> programs st' !! p = Some prog) /\
      lookupOrGenerate L glLink k st' = (p, st') /\
      (forall d, computeKey L d = k ->
         programs (useProgram L glLink d st') = programs st' /\
         mCache (useProgram L glLink d st') = mCache st').
Proof.
  intros WF Hk cs.
  destruct (run_total L glLink WF cs st) as [st' Hrun].
  exists st'. split; [exact Hrun|].
  pose proof (run_grows L glLink cs st st' Hrun) as G.
  assert (Hk' : valueFor st' k = Some p) by (apply G, Hk).
  split; [exact Hk'|]. split; [|split].
  - intros prog. now apply grows_program.
  - now apply lookupOrGenerate_hit.
  - intros d <-.
    destruct (useProgram_hit_same L glLink d st' p Hk') as [A B]. now split.
Qed.

Lemma C5_cached_program_is_kept_witness :
  exists st',
    run sample_layout link_all [CallUseProgram half_alpha; CallChangeUniform plain]
        (useProgram sample_layout link_all plain emptyCache) = Some st' /\
    valueFor st' (computeKey sample_layout plain) = Some 0%nat.
Proof.
  destruct (C5_cached_program_is_kept sample_layout link_all
              (useProgram sample_layout link_all plain emptyCache)
              (computeKey sample_layout plain) 0%nat eq_refl eq_refl
              [CallUseProgram half_alpha; CallChangeUniform plain])
    as (st' & Hrun & Hk & _).
  exists st'. split; assumption.
Defined.

(** C6: when the program cached for the key of a description failed to
    link, [useProgram] issues no call at all (no activation, no uniform);
    after any further calls the key is still mapped to that same invalid
    object, and [useProgram] with that key again builds nothing and
    issues nothing. *)
Theorem C6_failed_link_is_terminal
    (L : KeyLayout) (glLink : nat -> string -> string -> bool)
    (st : ProgramCache) (d : Description) (p : ProgramPtr) (prog : Program) :
  layout_wf L = true ->
  valueFor (useProgram L glLink d st) (computeKey L d) = Some p ->
  programs (useProgram L glLink d st) !! p = Some prog ->
  prog_valid prog = false ->
  glCalls (useProgram L glLink d st) = glCalls st /\
  forall cs : list Call,
    exists st', run L glLink cs (useProgram L glLink d st) = Some st' /\
      valueFor st' (computeKey L d) = Some p /\
      programs st' !! p = Some prog /\
      (forall d', computeKey L d' = computeKey L d ->
         useProgram L glLink d' st' = st').
Proof.
  intros WF Hk Hp Hv.
  assert (Inv : forall s, valueFor s (computeKey L d) = Some p ->
                programs s !! p = Some prog ->
                forall d', computeKey L d' = computeKey L d ->
                useProgram L glLink d' s = s).
  { intros s Hks Hps d' E.
    rewrite (useProgram_hit L glLink d' s p) by (now rewrite E).
    unfold isValid. now rewrite Hps, Hv. }
  split.
  - (* the first call *)
    revert Hk Hp. rewrite useProgram_unfold. cbv zeta.
    pose proof (lookupOrGenerate_cached L glLink (computeKey L d) st) as Hc.
    pose proof (lookupOrGenerate_glCalls L glLink (computeKey L d) st) as Hg.
    destruct (lookupOrGenerate L glLink (computeKey L d) st) as [q s1].
    cbn [fst snd] in *.
    destruct (isValid s1 q) eqn:Eq; [|intros _ _; exact Hg].
    unfold issue, valueFor in *. cbn [mCache programs].
    intros Hk Hp. rewrite Hc in Hk. injection Hk as ->.
    unfold isValid in Eq. rewrite Hp in Eq. congruence.
  - intros cs.
    destruct (run_total L glLink WF cs (useProgram L glLink d st)) as [st' Hrun].
    exists st'. split; [exact Hrun|].
    pose proof (run_grows L glLink cs _ st' Hrun) as G.
    assert (Hk' : valueFor st' (computeKey L d) = Some p) by (apply G, Hk).
    assert (Hp' : programs st' !! p = Some prog) by (eapply grows_program; eauto).
    auto.
Qed.

Lemma C6_failed_link_is_terminal_witness :
  glCalls (useProgram sample_layout link_none plain emptyCache) = [] /\
  exists st',
    run sample_layout link_none [CallUseProgram plain; CallPrimeCache]
        (useProgram sample_layout link_none plain emptyCache) = Some st' /\
    valueFor st' (computeKey sample_layout plain) = Some 0%nat.
Proof.
  destruct (C6_failed_link_is_terminal sample_layout link_none emptyCache plain 0%nat
              {| prog_needs := computeKey sample_layout plain;
                 prog_vs := generateVertexShader sample_layout (computeKey sample_layout plain);
                 prog_fs := generateFragmentShader sample_layout (computeKey sample_layout plain);
                 prog_valid := false |}
              eq_refl eq_refl eq_refl eq_refl) as [H0 H1].
  split; [exact H0|].
  destruct (H1 [CallUseProgram plain; CallPrimeCache]) as (st' & Hrun & Hk & _).
  exists st'. split; assumption.
Defined.

(** The binary32 literals are the numbers they are named after. *)
Lemma f32_literals :
  SFadd 24 128 f32_1 f32_1 = f32_2 /\
  SFadd 24 128 f32_2 f32_1 = f32_3 /\
  SFadd 24 128 f32_3 f32_1 = f32_4 /\
  SFadd 24 128 f32_4 f32_1 = f32_5 /\
  SFadd 24 128 f32_half f32_half = f32_1 /\
  SFadd 24 128 f32_1 f32_0 = f32_1.
Proof. repeat split; vm_compute; reflexivity. Qed.

(** The tap chain of [useProgram] is the table of the specification. *)
Lemma blurTaps_table (p : ProgramPtr) (n : Z) :
  blurTaps p n =
  match blurTable n with
  | Some (it, sat) => [Uniform1f p "iterator" it; Uniform1f p "saturation" sat]
  | None => []
  end.
Proof.
  destruct n as [|q|q]; try reflexivity.
  do 3 (destruct q as [q|q|]; try reflexivity).
Qed.

(** C7: with a valid program, [useProgram] activates it, binds the
    description, writes the destination height and width and, when blur
    is on, the four window bounds followed by the (iterator, saturation)
    pair that the table gives for the tap index. *)
Theorem C7_draw_uniforms
    (L : KeyLayout) (glLink : nat -> string -> string -> bool)
    (st : ProgramCache) (d : Description) (p : ProgramPtr) :
  layout_wf L = true ->
  valueFor (useProgram L glLink d st) (computeKey L d) = Some p ->
  isValid (useProgram L glLink d st) p = true ->
  glCalls (useProgram L glLink d st) =
  glCalls st ++
  [ProgramUse p; ProgramSetUniforms p d;
   Uniform1i p "rHeight" (hwHeight d); Uniform1i p "rWidth" (hwWidth d)] ++
  (if mBlur d then
     [Uniform1f p "sx" (sx d); Uniform1f p "bx" (bx d);
      Uniform1f p "sy" (sy d); Uniform1f p "by" (by_ d)] ++
     match blurTable (blurnum d) with
     | Some (it, sat) =>
         [Uniform1f p "iterator" it; Uniform1f p "saturation" sat]
     | None => []
     end
   else []).
Proof.
  intros WF. rewrite useProgram_unfold. cbv zeta.
  pose proof (lookupOrGenerate_cached L glLink (computeKey L d) st) as Hc.
  pose proof (lookupOrGenerate_glCalls L glLink (computeKey L d) st) as Hg.
  destruct (lookupOrGenerate L glLink (computeKey L d) st) as [q s1].
  cbn [fst snd] in *.
  destruct (isValid s1 q) eqn:Eq.
  - unfold issue, valueFor, isValid in *. cbn [mCache programs glCalls].
    intros Hk _. rewrite Hc in Hk. injection Hk as ->.
    rewrite Hg. unfold drawCalls.
    now rewrite (isBlur_computeKey L WF), blurTaps_table.
  - intros Hk Hv. unfold valueFor in *. rewrite Hc in Hk. injection Hk as ->.
    congruence.
Qed.

Lemma C7_draw_uniforms_witness :
  glCalls (useProgram sample_layout link_all blurred7 emptyCache) =
  [ProgramUse 0%nat; ProgramSetUniforms 0%nat blurred7;
   Uniform1i 0%nat "rHeight" 0; Uniform1i 0%nat "rWidth" 0;
   Uniform1f 0%nat "sx" f32_0; Uniform1f 0%nat "bx" f32_1;
   Uniform1f 0%nat "sy" f32_0; Uniform1f 0%nat "by" f32_1;
   Uniform1f 0%nat "iterator" f32_5; Uniform1f 0%nat "saturation" f32_2].
Proof.
  exact (C7_draw_uniforms sample_layout link_all emptyCache blurred7 0%nat
           eq_refl eq_refl eq_refl).
Defined.

Lemma rem2_even n : (Z.rem n 2 =? 0) = Z.even n.
Proof.
  destruct (Z.le_gt_cases 0 n) as [H | H].
  - rewrite Z.rem_mod_nonneg, Zmod_even by lia. now destruct (Z.even n).
  - rewrite <- (Z.opp_involutive n) at 1.
    rewrite Z.rem_opp_l, Z.rem_mod_nonneg, Zmod_even, Z.even_opp by lia.
    now destruct (Z.even n).
Qed.

(** C9: [changeUniform] never changes the cache or builds a program; it
    does nothing when the key is absent or has no blur; otherwise it
    writes the tap index to [blurnum1] and zero to [blurnum2] for an even
    blur number, and the tap index to [blurnum2] and zero to [blurnum1]
    for an odd one. *)
Theorem C9_changeUniform (L : KeyLayout) (d : Description) (st : ProgramCache) :
  mCache (changeUniform L d st) = mCache st /\
  programs (changeUniform L d st) = programs st /\
  (valueFor st (computeKey L d) = None \/ isBlur L (computeKey L d) = false ->
   changeUniform L d st = st) /\
  (forall p, valueFor st (computeKey L d) = Some p ->
     isBlur L (computeKey L d) = true ->
     (Z.even (blurnum d) = true ->
      glCalls (changeUniform L d st) =
      glCalls st ++ [Uniform1i p "blurnum1" (blurnum d); Uniform1i p "blurnum2" 0]) /\
     (Z.odd (blurnum d) = true ->
      glCalls (changeUniform L d st) =
      glCalls st ++ [Uniform1i p "blurnum2" (blurnum d); Uniform1i p "blurnum1" 0])).
Proof.
  unfold changeUniform. rewrite rem2_even.
  destruct (valueFor st (computeKey L d)) as [q|] eqn:Ek;
    destruct (isBlur L (computeKey L d)) eqn:Eb; cbn [negb];
    try (repeat split; intros; try reflexivity; try discriminate;
         match goal with H : _ \/ _ |- _ => destruct H; discriminate end).
  rewrite <- Z.negb_even.
  destruct (Z.even (blurnum d)); cbn [issue mCache programs glCalls negb];
    (repeat split; intros; try reflexivity; try discriminate;
     [ match goal with H : _ \/ _ |- _ => destruct H; discriminate end
     | match goal with H : Some _ = Some _ |- _ => injection H as <-; reflexivity end ]).
Qed.

(* ================================================================== *)
(** ** What priming leaves in the cache *)
(* ================================================================== *)

Lemma set_zero m v : set Key_new m v = v.
Proof. unfold set, Key_new. now rewrite Z.land_0_l, Z.lor_0_l. Qed.

(** A word whose bits all lie in [b] is at most [b]. *)
Lemma subset_le a b : 0 <= b -> Z.land a b = a -> 0 <= a <= b.
Proof.
  intros Hb E.
  assert (Ha : 0 <= a) by (rewrite <- E; apply Z.land_nonneg; auto).
  assert (Hc : 0 <= Z.ldiff b a) by (apply Z.ldiff_nonneg; auto).
  assert (D : Z.land a (Z.ldiff b a) = 0).
  { apply Z.bits_inj'. intros n _.
    rewrite Z.land_spec, Z.ldiff_spec, Z.bits_0. btauto. }
  assert (S : Z.lxor a (Z.ldiff b a) = b).
  { apply Z.bits_inj'. intros n _.
    rewrite Z.lxor_spec, Z.ldiff_spec.
    apply (f_equal (fun z => Z.testbit z n)) in E. rewrite Z.land_spec in E.
    destruct (Z.testbit a n), (Z.testbit b n); simpl in *; congruence. }
  apply Z.add_nocarry_lxor in D. lia.
Qed.

Lemma value_disjoint m v m' :
  value_in m v = true -> disjoint m m' = true -> Z.land v m' = 0.
Proof.
  intros Hv Hd. apply Z.bits_inj'. intros n _.
  rewrite Z.land_spec, Z.bits_0.
  destruct (Z.testbit v n) eqn:E; [|reflexivity].
  simpl. eapply disjoint_bit; [exact Hd|]. eapply value_in_bit; eauto.
Qed.

Lemma value_in_lor m1 m2 v : value_in m1 v = true -> value_in (Z.lor m1 m2) v = true.
Proof.
  unfold value_in. intros H. apply Z.eqb_eq in H. apply Z.eqb_eq.
  rewrite Z.land_lor_distr_r, H.
  apply Z.bits_inj'. intros n _. rewrite Z.lor_spec, Z.land_spec. btauto.
Qed.

Lemma value_in_lor_r m1 m2 v : value_in m2 v = true -> value_in (Z.lor m1 m2) v = true.
Proof. rewrite Z.lor_comm. apply value_in_lor. Qed.

Lemma value_in_lor_both m a b :
  value_in m a = true -> value_in m b = true -> value_in m (Z.lor a b) = true.
Proof.
  unfold value_in. intros Ha Hb. apply Z.eqb_eq in Ha, Hb. apply Z.eqb_eq.
  now rewrite Z.land_lor_distr_l, Ha, Hb.
Qed.

(** Below [2^n], nothing reaches a mask that avoids the low [n] bits. *)
Lemma low_word_disjoint n k m :
  0 <= n -> 0 <= k <= Z.ones n -> disjoint (Z.ones n) m = true ->
  Z.land k m = 0.
Proof.
  intros Hn Hk Hd. rewrite Z.ones_equiv in Hk.
  apply Z.bits_inj'. intros i Hi. rewrite Z.land_spec, Z.bits_0.
  destruct (Z.ltb_spec i n).
  - rewrite (disjoint_bit _ _ i Hd); [btauto|].
    rewrite Z.testbit_ones_nonneg by lia.
    apply Z.ltb_lt. lia.
  - rewrite <- (Z.mod_small k (2 ^ n)) by lia.
    rewrite Z.mod_pow2_bits_high by lia. reflexivity.
Qed.

Section Priming.

Variable L : KeyLayout.
Variable glLink : nat -> string -> string -> bool.

Lemma primeBody_present v st :
  target_known L v = true -> is_Some (valueFor (primeBody L glLink v st) v).
Proof.
  unfold target_known, primeBody. rewrite set_zero. cbv zeta. intros H.
  replace (negb _ && negb _ && negb _) with false
    by (destruct (_ =? _), (_ =? _), (_ =? _); simpl in *; congruence).
  destruct (valueFor st v) eqn:E; [rewrite E; eauto|].
  unfold generateProgram, add, valueFor. cbn [mCache].
  rewrite lookup_insert_eq. eauto.
Qed.

Lemma primeBody_keys v st k p :
  valueFor (primeBody L glLink v st) k = Some p ->
  valueFor st k = Some p \/ k = v.
Proof.
  unfold primeBody. rewrite set_zero. cbv zeta.
  destruct (_ && _); [auto|].
  destruct (valueFor st v) eqn:E; [auto|].
  unfold generateProgram, add, valueFor. cbn [mCache].
  destruct (decide (v = k)) as [<- | Hne]; [auto|].
  rewrite lookup_insert_ne by assumption. auto.
Qed.

Lemma primeBody_built v st :
  entries_built L st -> entries_built L (primeBody L glLink v st).
Proof.
  intros B. unfold primeBody. rewrite set_zero. cbv zeta.
  destruct (_ && _); [exact B|].
  destruct (valueFor st v) eqn:E; [exact B|].
  unfold generateProgram, add, entries_built. cbn [mCache programs].
  intros k p. destruct (decide (v = k)) as [<- | Hne].
  - rewrite lookup_insert_eq. intros [= <-].
    eexists. split; [apply list_lookup_middle; reflexivity|]. auto.
  - rewrite lookup_insert_ne by assumption. intros H.
    destruct (B k p H) as (prog & Hp & Hrest).
    exists prog. split; [now apply lookup_app_l_Some | exact Hrest].
Qed.

Lemma fold_grows vs : forall st, grows st (foldl (fun st v => primeBody L glLink v st) st vs).
Proof.
  induction vs as [|v vs IH]; intros st; cbn [foldl].
  - apply grows_refl.
  - eapply grows_trans; [apply primeBody_grows | apply IH].
Qed.

Lemma fold_present vs : forall st v,
  In v vs -> target_known L v = true -> is_Some (valueFor (foldl (fun st v => primeBody L glLink v st) st vs) v).
Proof.
  induction vs as [|w vs IH]; intros st v []; intros Hk; cbn [foldl].
  - subst w. destruct (primeBody_present v st Hk) as [p Hp].
    exists p. now apply (fold_grows vs (primeBody L glLink v st)).
  - now apply IH.
Qed.

Lemma fold_keys vs : forall st k p,
  valueFor (foldl (fun st v => primeBody L glLink v st) st vs) k = Some p ->
  is_Some (valueFor st k) \/ In k vs.
Proof.
  induction vs as [|w vs IH]; intros st k p; cbn [foldl].
  - eauto.
  - intros H. destruct (IH _ _ _ H) as [[q Hq] | Hin].
    + destruct (primeBody_keys _ _ _ _ Hq) as [Hs | ->];
        [left; eauto | right; now left].
    + right. now right.
Qed.

Lemma fold_built vs : forall st,
  entries_built L st -> entries_built L (foldl (fun st v => primeBody L glLink v st) st vs).
Proof.
  induction vs as [|w vs IH]; intros st B; cbn [foldl]; [exact B|].
  apply IH, primeBody_built, B.
Qed.

End Priming.

Lemma emptyCache_built L : entries_built L emptyCache.
Proof. intros k p H. unfold emptyCache in H. cbn in H. now rewrite lookup_empty in H. Qed.

(** A combination of one enumerator from each primed field is a key in
    the range of the loop whose texture target is its TEXTURE part. *)
Lemma combination_in_range L tex op pa bl :
  layout_wf L = true ->
  In tex [TEXTURE_OFF L; TEXTURE_EXT L; TEXTURE_2D L] ->
  In op [OPACITY_OPAQUE L; OPACITY_TRANSLUCENT L] ->
  In pa [PLANE_ALPHA_EQ_ONE L; PLANE_ALPHA_LT_ONE L] ->
  In bl [BLEND_PREMULT L; BLEND_NORMAL L] ->
  0 <= Z.lor (Z.lor (Z.lor tex op) pa) bl <= keyMask L /\
  getTextureTarget L (Z.lor (Z.lor (Z.lor tex op) pa) bl) = tex.
Proof.
  intros WF Ht Ho Hp Hb. wf_facts WF.
  assert (Vt : value_in (TEXTURE_MASK L) tex = true)
    by (destruct Ht as [<- | [<- | [<- | []]]]; assumption).
  assert (Vo : value_in (OPACITY_MASK L) op = true)
    by (destruct Ho as [<- | [<- | []]]; assumption).
  assert (Vp : value_in (PLANE_ALPHA_MASK L) pa = true)
    by (destruct Hp as [<- | [<- | []]]; assumption).
  assert (Vb : value_in (BLEND_MASK L) bl = true)
    by (destruct Hb as [<- | [<- | []]]; assumption).
  split.
  - apply subset_le; [apply (mask_ok_range _ (keyMask_ok L WF))|].
    apply Z.eqb_eq. fold (value_in (keyMask L) (Z.lor (Z.lor (Z.lor tex op) pa) bl)).
    unfold keyMask. repeat apply value_in_lor_both.
    + apply value_in_lor_r, Vt.
    + apply value_in_lor, value_in_lor, value_in_lor_r, Vo.
    + apply value_in_lor, value_in_lor_r, Vp.
    + apply value_in_lor, value_in_lor, value_in_lor, Vb.
  - unfold getTextureTarget. rewrite !Z.land_lor_distr_l.
    rewrite (value_disjoint _ _ (TEXTURE_MASK L) Vo) by auto with keybits.
    rewrite (value_disjoint _ _ (TEXTURE_MASK L) Vp) by auto with keybits.
    rewrite (value_disjoint _ _ (TEXTURE_MASK L) Vb) by auto with keybits.
    rewrite !Z.lor_0_r. apply Z.eqb_eq, Vt.
Qed.

(** C4: the constructor returns, and the cache it leaves holds, for each
    texture target OFF, EXTERNAL, 2D and each value of OPACITY,
    PLANE_ALPHA and BLEND, a program built for that key; no key in it has
    a bit of COLOR_MATRIX, WIDE_GAMUT, BLUR or FIRSTAPP set. *)
Theorem C4_priming_coverage
    (L : KeyLayout) (glLink : nat -> string -> string -> bool) :
  layout_wf L = true ->
  primed_fields_low L = true ->
  exists st,
    ProgramCache_ctor L glLink = Some st /\
    (forall tex op pa bl,
       In tex [TEXTURE_OFF L; TEXTURE_EXT L; TEXTURE_2D L] ->
       In op [OPACITY_OPAQUE L; OPACITY_TRANSLUCENT L] ->
       In pa [PLANE_ALPHA_EQ_ONE L; PLANE_ALPHA_LT_ONE L] ->
       In bl [BLEND_PREMULT L; BLEND_NORMAL L] ->
       exists p prog,
         valueFor st (Z.lor (Z.lor (Z.lor tex op) pa) bl) = Some p /\
         programs st !! p = Some prog /\
         prog_needs prog = Z.lor (Z.lor (Z.lor tex op) pa) bl /\
         prog_vs prog =
           generateVertexShader L (Z.lor (Z.lor (Z.lor tex op) pa) bl) /\
         prog_fs prog =
           generateFragmentShader L (Z.lor (Z.lor (Z.lor tex op) pa) bl)) /\
    (forall k p, valueFor st k = Some p ->
       Z.land k (COLOR_MATRIX_MASK L) = 0 /\
       Z.land k (WIDE_GAMUT_MASK L) = 0 /\
       Z.land k (BLUR_MASK L) = 0 /\
       Z.land k (FIRSTAPP_MASK L) = 0).
Proof.
  intros WF Low. unfold ProgramCache_ctor.
  rewrite (primeCache_fold L glLink WF).
  eexists. split; [reflexivity|].
  pose proof (mask_ok_range _ (keyMask_ok L WF)) as R.
  split.
  - intros tex op pa bl Ht Ho Hp Hb.
    destruct (combination_in_range L tex op pa bl WF Ht Ho Hp Hb) as [Hr Htex].
    set (k := Z.lor (Z.lor (Z.lor tex op) pa) bl) in *.
    assert (Hin : In k (seqZ 0 (keyMask L + 1)))
      by (apply list_elem_of_In, elem_of_seqZ; lia).
    assert (Hknown : target_known L k = true).
    { unfold target_known. rewrite Htex. cbv zeta.
      destruct Ht as [<- | [<- | [<- | []]]]; rewrite Z.eqb_refl;
        rewrite ?orb_true_r; reflexivity. }
    destruct (fold_present L glLink _ emptyCache k Hin Hknown) as [p Hp'].
    destruct (fold_built L glLink (seqZ 0 (keyMask L + 1)) emptyCache
                (emptyCache_built L) k p Hp') as (prog & Hprog & Hrest).
    exists p, prog. auto.
  - intros k p Hk.
    destruct (fold_keys L glLink _ _ _ _ Hk) as [[q Hq] | Hin].
    { unfold valueFor, emptyCache in Hq. cbn in Hq.
      now rewrite lookup_empty in Hq. }
    apply list_elem_of_In, elem_of_seqZ in Hin.
    unfold primed_fields_low in Low. apply Z.eqb_eq in Low.
    assert (D : forall m,
               In m [COLOR_MATRIX_MASK L; WIDE_GAMUT_MASK L; BLUR_MASK L;
                     FIRSTAPP_MASK L] ->
               Z.land k m = 0).
    { intros m Hm.
      apply (low_word_disjoint (Z.log2 (keyMask L + 1)));
        [apply Z.log2_nonneg | rewrite <- Low; lia |].
      rewrite <- Low. now apply keyMask_disjoint. }
    repeat split; apply D; cbn; auto.
Qed.

Lemma C4_priming_coverage_witness :
  exists st,
    ProgramCache_ctor sample_layout link_all = Some st /\
    is_Some (valueFor st 19).
Proof.
  destruct (C4_priming_coverage sample_layout link_all eq_refl eq_refl)
    as (st & Hc & Hcov & _).
  exists st. split; [exact Hc|].
  destruct (Hcov 16 2 0 1 ltac:(cbn; auto) ltac:(cbn; auto)
              ltac:(cbn; auto) ltac:(cbn; auto)) as (p & prog & Hp & _).
  now exists p.
Defined.

(* ================================================================== *)
(** ** The constructor of Description *)
(* ================================================================== *)

(** C10: the constructor fixes plane alpha, premultiplied, opaque,
    texture-enabled and colour-matrix-enabled, and with them the TEXTURE,
    PLANE_ALPHA, BLEND, OPACITY and COLOR_MATRIX fields of the key; the
    blur, wide-gamut and first-app members keep whatever the object held
    before, and every combination of the BLUR, WIDE_GAMUT and FIRSTAPP
    fields of the key is obtained from some such content. *)
Theorem C10_constructor_leaves_flags_open (L : KeyLayout) :
  layout_wf L = true ->
  (forall pre,
     mPlaneAlpha (Description_ctor pre) = f32_1 /\
     mPremultipliedAlpha (Description_ctor pre) = false /\
     mOpaque (Description_ctor pre) = true /\
     mTextureEnabled (Description_ctor pre) = false /\
     mColorMatrixEnabled (Description_ctor pre) = false /\
     mBlur (Description_ctor pre) = mBlur pre /\
     mIsWideGamut (Description_ctor pre) = mIsWideGamut pre /\
     mFirstApp (Description_ctor pre) = mFirstApp pre) /\
  (forall pre,
     getTextureTarget L (computeKey L (Description_ctor pre)) = TEXTURE_OFF L /\
     hasPlaneAlpha L (computeKey L (Description_ctor pre)) = false /\
     isPremultiplied L (computeKey L (Description_ctor pre)) = false /\
     isOpaque L (computeKey L (Description_ctor pre)) = true /\
     hasColorMatrix L (computeKey L (Description_ctor pre)) = false) /\
  (forall b w f : bool, exists pre,
     isBlur L (computeKey L (Description_ctor pre)) = b /\
     isWideGamut L (computeKey L (Description_ctor pre)) = w /\
     (firstAppField L (computeKey L (Description_ctor pre)) =? FIRSTAPP_TRUE L) = f).
Proof.
  intros WF. split; [|split].
  - intros pre. repeat split.
  - intros pre.
    rewrite (getTextureTarget_computeKey L WF), (hasPlaneAlpha_computeKey L WF),
      (isPremultiplied_computeKey L WF), (isOpaque_computeKey L WF),
      (hasColorMatrix_computeKey L WF).
    repeat split.
  - intros b w f.
    exists (setBlur b (setWideGamut w (setFirstApp f zeroed))).
    rewrite (isBlur_computeKey L WF), (isWideGamut_computeKey L WF),
      (firstApp_computeKey L WF).
    repeat split.
Qed.

Lemma C10_constructor_leaves_flags_open_witness :
  isOpaque sample_layout (computeKey sample_layout (Description_ctor zeroed)) = true /\
  hasColorMatrix sample_layout (computeKey sample_layout (Description_ctor zeroed)) = false.
Proof.
  destruct (C10_constructor_leaves_flags_open sample_layout eq_refl) as (_ & H & _).
  destruct (H zeroed) as (_ & _ & _ & Ho & Hc).
  split; assumption.
Defined.

(* ================================================================== *)
(** ** Runs on the sample data *)
(* ================================================================== *)

Example computeKey_plain :
  computeKey sample_layout plain = 2 /\
  computeKey sample_layout half_alpha = 6 /\
  computeKey sample_layout blurred7 = 146.
Proof. repeat split. Qed.

Example priming_builds_24_programs :
  (fun st => (size (mCache st), length (programs st), glCalls st)) <$>
    ProgramCache_ctor sample_layout link_all = Some (24%nat, 24%nat, []).
Proof. vm_compute. reflexivity. Qed.

(** A fresh cache generates once for a description and not again. *)
Example one_generation_then_none :
  length (programs (useProgram sample_layout link_all plain emptyCache)) = 1%nat /\
  length (programs (useProgram sample_layout link_all plain
                      (useProgram sample_layout link_all plain emptyCache))) = 1%nat.
Proof. split; vm_compute; reflexivity. Qed.

Example vertex_shader_untextured :
  generateVertexShader sample_layout 2 =
  "attribute vec4 position;" +:+ endl +:+
  "uniform mat4 projection;" +:+ endl +:+
  "uniform mat4 texture;" +:+ endl +:+
  "void main(void) {" +:+ endl +:+
  "    gl_Position = projection * position;" +:+ endl +:+
  "}" +:+ endl.
Proof. vm_compute. reflexivity. Qed.

(* ================================================================== *)
(** ** Formatter *)
(* ================================================================== *)

Lemma string_append_assoc (a b c : string) : (a +:+ b) +:+ c = a +:+ (b +:+ c).
Proof.
  induction a as [|x a IH]; [reflexivity|].
  change (String x ((a +:+ b) +:+ c) = String x (a +:+ (b +:+ c))).
  now rewrite IH.
Qed.

Lemma string_append_nil_r (a : string) : a +:+ "" = a.
Proof.
  induction a as [|x a IH]; [reflexivity|].
  change (String x (a +:+ "") = String x a). now rewrite IH.
Qed.

Lemma append_indent_spec n : forall s, append_indent n s = s +:+ indentation n.
Proof.
  induction n as [|n IH]; intros s; cbn [append_indent].
  - cbn [indentation]. now rewrite string_append_nil_r.
  - rewrite IH. change (indentation (S n)) with ("    " +:+ indentation n).
    now rewrite string_append_assoc.
Qed.

(** X1: [operator <<] appends to what was written: four spaces for each
    level of indentation (none when the level is zero or negative), the
    text, and a newline; the level is unchanged. *)
Theorem X1_formatter_put (out : Formatter) (text : string) :
  mString (out << text) =
    mString out +:+ indentation (Z.to_nat (mIndent out)) +:+ text +:+ endl /\
  mIndent (out << text) = mIndent out /\
  (mIndent out <= 0 -> mString (out << text) = mString out +:+ text +:+ endl).
Proof.
  unfold put. cbn [mString mIndent].
  rewrite append_indent_spec, string_append_assoc.
  split; [reflexivity | split; [reflexivity|]].
  intros H. replace (Z.to_nat (mIndent out)) with O by lia.
  reflexivity.
Qed.

(* ================================================================== *)
(** ** The vertex shader and the interface of the two stages *)
(* ================================================================== *)

Lemma uniform_interface_all : all_tests check_uniform_interface = true.
Proof. vm_compute. reflexivity. Qed.

Lemma blur_numbers_all : all_tests check_blur_numbers = true.
Proof. vm_compute. reflexivity. Qed.


Lemma varying_all : all_tests check_varying = true.
Proof. vm_compute. reflexivity. Qed.

(** The declared uniforms of a fragment shader, by the tests of its key. *)
Lemma declared_uniforms_expected (L : KeyLayout) (k : Key) :
  declared_uniforms (parse (generateFragmentShader L k)) =
  expected_uniforms (keyTests L k).
Proof.
  pose proof (all_tests_spec _ uniform_interface_all (keyTests L k)) as H.
  unfold check_uniform_interface in H.
  now apply bool_decide_eq_true in H.
Qed.

(** X2: the vertex shader always declares the position attribute and the
    two matrix uniforms and transforms the position; it declares the
    texture-coordinate attribute and varying and emits the coordinate
    transform exactly when the key is texturing, so the varying is
    declared whenever it is assigned. *)
Theorem X2_vertex_shader (L : KeyLayout) (k : Key) :
  declares_attribute "position" (parse (generateVertexShader L k)) = true /\
  declared_uniforms (parse (generateVertexShader L k)) = ["projection"; "texture"] /\
  contains "gl_Position = projection * position;" (generateVertexShader L k) = true /\
  declares_attribute "texCoords" (parse (generateVertexShader L k)) = isTexturing L k /\
  declares_varying "outTexCoords" (parse (generateVertexShader L k)) = isTexturing L k /\
  contains "outTexCoords = (texture * texCoords).st;" (generateVertexShader L k) =
    isTexturing L k /\
  declared_before_use "outTexCoords" (parse (generateVertexShader L k)) = true.
Proof.
  unfold generateVertexShader, vertexShaderText. cbn [keyTests texturing].
  destruct (isTexturing L k); vm_compute; repeat split.
Qed.

(** X3: the uniforms a fragment shader declares are, in this order:
    [sampler] for an EXTERNAL or 2D target or [color] for OFF,
    [alphaPlane] with plane alpha, [colorMatrix] with the colour matrix,
    [rWidth] and [rHeight] always, and the six blur uniforms with blur. *)
Theorem X3_fragment_uniform_interface (L : KeyLayout) (k : Key) :
  declared_uniforms (parse (generateFragmentShader L k)) =
  (if getTextureTarget L k =? TEXTURE_EXT L then ["sampler"]
   else if getTextureTarget L k =? TEXTURE_2D L then ["sampler"]
   else if getTextureTarget L k =? TEXTURE_OFF L then ["color"] else []) ++
  (if hasPlaneAlpha L k then ["alphaPlane"] else []) ++
  (if hasColorMatrix L k then ["colorMatrix"] else []) ++
  ["rWidth"; "rHeight"] ++
  (if isBlur L k then ["iterator"; "saturation"; "sx"; "bx"; "sy"; "by"] else []).
Proof. apply declared_uniforms_expected. Qed.

Lemma blurTaps_names (p : ProgramPtr) (n : Z) (name : string) :
  In name (uniform_names (blurTaps p n)) -> In name ["iterator"; "saturation"].
Proof.
  rewrite blurTaps_table. destruct (blurTable n) as [[it sat]|]; cbn; tauto.
Qed.

Lemma uniform_names_app (a b : list GLCall) :
  uniform_names (a ++ b) = uniform_names a ++ uniform_names b.
Proof. unfold uniform_names. apply omap_app. Qed.

(** X4: every uniform that [useProgram] writes for a key is declared by
    the fragment shader generated for that key. *)
Theorem X4_written_uniforms_are_declared
    (L : KeyLayout) (k : Key) (p : ProgramPtr) (d : Description) (name : string) :
  In name (uniform_names (drawCalls L k p d)) ->
  In name (declared_uniforms (parse (generateFragmentShader L k))).
Proof.
  rewrite declared_uniforms_expected.
  unfold drawCalls, expected_uniforms. cbn [keyTests blur].
  rewrite uniform_names_app. intros H.
  do 3 (apply in_or_app; right).
  apply in_app_or in H as [H | H].
  - cbn in H. cbn. tauto.
  - apply in_or_app. right. destruct (isBlur L k); [|destruct H].
    rewrite uniform_names_app in H. apply in_app_or in H as [H | H].
    + cbn in H. cbn. tauto.
    + apply blurTaps_names in H. cbn in H. cbn. tauto.
Qed.

Lemma X4_written_uniforms_are_declared_witness :
  In "saturation"
     (declared_uniforms (parse (generateFragmentShader sample_layout 146))).
Proof.
  apply (X4_written_uniforms_are_declared sample_layout 146 0%nat blurred7).
  vm_compute. tauto.
Defined.

(** X5: the two names that [changeUniform] writes, [blurnum1] and
    [blurnum2], occur in no generated shader text, vertex or fragment:
    whatever it writes goes to a uniform that no program of the cache
    declares. *)
Theorem X5_blur_numbers_are_declared_nowhere
    (L : KeyLayout) (d : Description) (st : ProgramCache) (calls : list GLCall) :
  glCalls (changeUniform L d st) = glCalls st ++ calls ->
  forall name, In name (uniform_names calls) ->
    In name ["blurnum1"; "blurnum2"] /\
    forall k : Key,
      contains name (generateFragmentShader L k) = false /\
      contains name (generateVertexShader L k) = false.
Proof.
  intros E name Hin.
  assert (Hname : In name ["blurnum1"; "blurnum2"]).
  { unfold changeUniform in E.
    destruct (valueFor st (computeKey L d)) as [q|].
    2:{ rewrite <- (app_nil_r (glCalls st)) in E at 1.
        apply app_inv_head in E. subst calls. destruct Hin. }
    destruct (negb _).
    { rewrite <- (app_nil_r (glCalls st)) in E at 1.
      apply app_inv_head in E. subst calls. destruct Hin. }
    destruct (_ =? _); cbn [issue glCalls] in E; apply app_inv_head in E;
      subst calls; cbn in Hin; cbn; tauto. }
  split; [exact Hname|]. intros k.
  pose proof (all_tests_spec _ blur_numbers_all (keyTests L k)) as H.
  unfold check_blur_numbers in H. cbv zeta in H.
  fold (generateFragmentShader L k) in H. fold (generateVertexShader L k) in H.
  apply andb_true_iff in H as [H H4]. apply andb_true_iff in H as [H H3].
  apply andb_true_iff in H as [H1 H2].
  apply negb_true_iff in H1, H2, H3, H4.
  destruct Hname as [<- | [<- | []]]; auto.
Qed.

Lemma X5_blur_numbers_are_declared_nowhere_witness :
  contains "blurnum2" (generateFragmentShader sample_layout 146) = false.
Proof.
  destruct (X5_blur_numbers_are_declared_nowhere sample_layout blurred7
              (useProgram sample_layout link_all blurred7 emptyCache)
              [Uniform1i 0%nat "blurnum2" 7; Uniform1i 0%nat "blurnum1" 0]
              eq_refl "blurnum2" ltac:(cbn; tauto)) as [_ H].
  apply (H 146).
Defined.


(** X7: for a key whose texture target is one of the three enumerators,
    the vertex shader and the fragment shader declare the varying
    [outTexCoords] together, exactly when the key is texturing. *)
Theorem X7_stages_agree_on_varying (L : KeyLayout) (k : Key) :
  layout_wf L = true ->
  target_known L k = true ->
  declares_varying "outTexCoords" (parse (generateVertexShader L k)) = isTexturing L k /\
  declares_varying "outTexCoords" (parse (generateFragmentShader L k)) = isTexturing L k.
Proof.
  intros WF Hk.
  assert (Ht : getTextureTarget L k = TEXTURE_OFF L \/
               getTextureTarget L k = TEXTURE_EXT L \/
               getTextureTarget L k = TEXTURE_2D L).
  { unfold target_known in Hk. cbv zeta in Hk.
    apply orb_true_iff in Hk as [Hk | Hk]; [apply orb_true_iff in Hk as [Hk | Hk]|];
      apply Z.eqb_eq in Hk; auto. }
  pose proof (all_tests_spec _ varying_all (keyTests L k)) as H.
  unfold check_varying in H. cbv zeta in H.
  rewrite (target_tests_of_key L k WF Ht) in H.
  fold (generateFragmentShader L k) in H. fold (generateVertexShader L k) in H.
  apply andb_true_iff in H as [H _]. apply andb_true_iff in H as [Hv Hf].
  apply Bool.eqb_prop in Hv, Hf. split; assumption.
Qed.

Lemma X7_stages_agree_on_varying_witness :
  declares_varying "outTexCoords" (parse (generateVertexShader sample_layout 146)) = true /\
  declares_varying "outTexCoords" (parse (generateFragmentShader sample_layout 146)) = true.
Proof.
  exact (X7_stages_agree_on_varying sample_layout 146 eq_refl eq_refl).
Defined.

(** X8: for a key whose texture target is none of the three enumerators
    the generators disagree: the vertex shader declares the varying, the
    fragment shader declares neither the varying nor a sampler nor the
    flat colour, and yet samples; its text is not well formed. *)
Theorem X8_unknown_target_text (L : KeyLayout) (k : Key) :
  target_known L k = false ->
  declares_varying "outTexCoords" (parse (generateVertexShader L k)) = true /\
  declares_varying "outTexCoords" (parse (generateFragmentShader L k)) = false /\
  declares_uniform "sampler" (parse (generateFragmentShader L k)) = false /\
  declares_uniform "color" (parse (generateFragmentShader L k)) = false /\
  well_formed (generateFragmentShader L k) = false.
Proof.
  intros Hk. unfold target_known in Hk. cbv zeta in Hk.
  apply orb_false_iff in Hk as [Hk H2]. apply orb_false_iff in Hk as [Ho He].
  pose proof (all_tests_spec _ varying_all (keyTests L k)) as H.
  unfold check_varying in H. cbv zeta in H.
  apply andb_true_iff in H as [_ H].
  unfold target_tests_unknown in H.
  cbn [keyTests targetIsExt targetIs2D targetIsOff texturing] in H.
  unfold isTexturing in H. fold (getTextureTarget L k) in H.
  rewrite Ho, He, H2 in H. cbn [negb andb] in H.
  fold (generateFragmentShader L k) in H. fold (generateVertexShader L k) in H.
  repeat match type of H with
         | (_ && _) = true =>
             let H' := fresh "H" in apply andb_true_iff in H as [H H']
         end.
  repeat match goal with
         | H : negb _ = true |- _ => apply negb_true_iff in H
         end.
  auto.
Qed.

Lemma X8_unknown_target_text_witness :
  well_formed (generateFragmentShader sample_layout 24) = false.
Proof.
  apply (X8_unknown_target_text sample_layout 24 eq_refl).
Defined.

(* ================================================================== *)
(** ** More on keys *)
(* ================================================================== *)

Lemma mask_ok_sub m v : mask_ok m = true -> value_in m v = true -> mask_ok v = true.
Proof.
  intros Hm Hv. pose proof (mask_ok_range m Hm) as R.
  unfold value_in in Hv. apply Z.eqb_eq in Hv.
  destruct (subset_le v m ltac:(lia) Hv).
  unfold mask_ok, UINT32_MAX. apply andb_true_iff. split; apply Z.leb_le; lia.
Qed.

Lemma not32_range m : 0 <= not32 m < 2 ^ 32.
Proof. unfold not32. apply Z.mod_pos_bound. lia. Qed.

Lemma mask_ok_set k m v : mask_ok v = true -> mask_ok (set k m v) = true.
Proof.
  intros Hv. unfold set. apply mask_ok_lor; [|exact Hv].
  pose proof (not32_range m) as R.
  destruct (subset_le (Z.land k (not32 m)) (not32 m) ltac:(lia)) as [A B].
  { now rewrite <- Z.land_assoc, Z.land_diag. }
  unfold mask_ok, UINT32_MAX. apply andb_true_iff. split; apply Z.leb_le; lia.
Qed.

Lemma value_in_set M k m v :
  value_in M k = true -> value_in M v = true -> value_in M (set k m v) = true.
Proof.
  unfold value_in, set. intros Hk Hv. apply Z.eqb_eq in Hk, Hv. apply Z.eqb_eq.
  rewrite Z.land_lor_distr_l, Hv. f_equal.
  rewrite <- Z.land_assoc, (Z.land_comm (not32 m)), Z.land_assoc. now rewrite Hk.
Qed.

Section KeyRange.

Variable L : KeyLayout.
Hypothesis WF : layout_wf L = true.

Lemma value_in_fields m v :
  In m (all_masks L) -> value_in m v = true -> value_in (fieldsMask L) v = true.
Proof.
  unfold all_masks, fieldsMask, keyMask.
  intros [<- | [<- | [<- | [<- | [<- | [<- | [<- | [<- | []]]]]]]]] H;
    auto 10 using value_in_lor, value_in_lor_r.
Qed.

Lemma computeKey_in_fields d : value_in (fieldsMask L) (computeKey L d) = true.
Proof.
  wf_facts WF. pose proof (textureNeeds_in L WF d).
  unfold computeKey. cbv zeta.
  repeat apply value_in_set;
    try (eapply value_in_fields; [|eauto with keybits]; cbn; tauto);
    try reflexivity.
Qed.

Lemma computeKey_mask_ok d : mask_ok (computeKey L d) = true.
Proof.
  wf_facts WF. unfold computeKey. cbv zeta.
  apply mask_ok_set. eapply mask_ok_sub; [|eauto with keybits]. assumption.
Qed.

(** A word inside the eight fields is determined by its fields. *)
Lemma key_ext a b :
  value_in (fieldsMask L) a = true -> value_in (fieldsMask L) b = true ->
  (forall m, In m (all_masks L) -> Z.land a m = Z.land b m) -> a = b.
Proof.
  intros Ha Hb E. apply Z.bits_inj'. intros n _.
  assert (P : forall x y, value_in (fieldsMask L) x = true ->
              (forall m, In m (all_masks L) -> Z.land x m = Z.land y m) ->
              Z.testbit x n = true -> Z.testbit y n = true).
  { intros x y Hx Exy Hn.
    pose proof (value_in_bit _ _ _ Hx Hn) as F.
    unfold fieldsMask, keyMask in F. rewrite !Z.lor_spec in F.
    repeat match type of F with
           | (_ || _) = true => apply orb_true_iff in F as [F | F]
           end;
      match type of F with
      | Z.testbit ?m n = true =>
          assert (I : In m (all_masks L)) by (cbn; tauto);
          pose proof (f_equal (fun z => Z.testbit z n) (Exy m I)) as T;
          cbv beta in T; rewrite !Z.land_spec, Hn, F in T;
          now destruct (Z.testbit y n)
      end. }
  destruct (Z.testbit a n) eqn:Ea, (Z.testbit b n) eqn:Eb; try reflexivity.
  - rewrite (P a b Ha E Ea) in Eb. discriminate.
  - rewrite (P b a Hb (fun m I => eq_sym (E m I)) Eb) in Ea. discriminate.
Qed.

End KeyRange.

Section KeyOfDescription.

Variable L : KeyLayout.
Hypothesis WF : layout_wf L = true.

(** The fields of a key after one more [set]. *)
Ltac fields_after_set :=
  let m := fresh "m" in
  let Hm := fresh "Hm" in
  intros m Hm;
  unfold all_masks in Hm; cbn [In] in Hm;
  repeat (destruct Hm as [<- | Hm]); try contradiction;
  first [ rewrite land_set_same by auto with keybits
        | rewrite land_set_other by auto with keybits ];
  repeat match goal with
         | |- context [Z.land (computeKey L ?x) (FIRSTAPP_MASK L)] =>
             change (Z.land (computeKey L x) (FIRSTAPP_MASK L))
               with (firstAppField L (computeKey L x))
         end;
  rewrite ?(firstApp_of_computeKey L WF);
  rewrite ?(texture_of_computeKey L WF), ?(planeAlpha_of_computeKey L WF),
    ?(blend_of_computeKey L WF), ?(opacity_of_computeKey L WF),
    ?(colorMatrix_of_computeKey L WF), ?(wideGamut_of_computeKey L WF),
    ?(blur_of_computeKey L WF);
  reflexivity.

Ltac key_after_setter m :=
  wf_facts WF; pose proof (textureNeeds_in L WF);
  apply (key_ext L);
  [ apply (computeKey_in_fields L WF)
  | apply value_in_set;
    [ apply (computeKey_in_fields L WF)
    | apply (value_in_fields L m); [cbn; tauto | auto with keybits] ]
  | fields_after_set ].

Lemma computeKey_setOpaque b d :
  computeKey L (setOpaque b d) =
  set (computeKey L d) (OPACITY_MASK L)
      (if b then OPACITY_OPAQUE L else OPACITY_TRANSLUCENT L).
Proof. key_after_setter (OPACITY_MASK L). Qed.

Lemma computeKey_setPremultipliedAlpha b d :
  computeKey L (setPremultipliedAlpha b d) =
  set (computeKey L d) (BLEND_MASK L)
      (if b then BLEND_PREMULT L else BLEND_NORMAL L).
Proof. key_after_setter (BLEND_MASK L). Qed.

Lemma computeKey_setPlaneAlpha a d :
  computeKey L (setPlaneAlpha a d) =
  set (computeKey L d) (PLANE_ALPHA_MASK L)
      (if SFltb a f32_1 then PLANE_ALPHA_LT_ONE L else PLANE_ALPHA_EQ_ONE L).
Proof. key_after_setter (PLANE_ALPHA_MASK L). Qed.

Lemma computeKey_setBlur b d :
  computeKey L (setBlur b d) =
  set (computeKey L d) (BLUR_MASK L) (if b then BLUR_ON L else BLUR_OFF L).
Proof. key_after_setter (BLUR_MASK L). Qed.

Lemma computeKey_setWideGamut b d :
  computeKey L (setWideGamut b d) =
  set (computeKey L d) (WIDE_GAMUT_MASK L)
      (if b then WIDE_GAMUT_ON L else WIDE_GAMUT_OFF L).
Proof. key_after_setter (WIDE_GAMUT_MASK L). Qed.

Lemma computeKey_setFirstApp b d :
  computeKey L (setFirstApp b d) =
  set (computeKey L d) (FIRSTAPP_MASK L)
      (if b then FIRSTAPP_TRUE L else FIRSTAPP_FALSE L).
Proof. key_after_setter (FIRSTAPP_MASK L). Qed.

Lemma computeKey_disableTexture d :
  computeKey L (disableTexture d) =
  set (computeKey L d) (TEXTURE_MASK L) (TEXTURE_OFF L).
Proof. key_after_setter (TEXTURE_MASK L). Qed.

Lemma computeKey_setTexture t d :
  computeKey L (setTexture t d) =
  set (computeKey L d) (TEXTURE_MASK L)
      (if mTextureTarget t =? GL_TEXTURE_EXTERNAL_OES then TEXTURE_EXT L
       else if mTextureTarget t =? GL_TEXTURE_2D then TEXTURE_2D L
       else TEXTURE_OFF L).
Proof.
  assert (V : value_in (TEXTURE_MASK L)
                (if mTextureTarget t =? GL_TEXTURE_EXTERNAL_OES then TEXTURE_EXT L
                 else if mTextureTarget t =? GL_TEXTURE_2D then TEXTURE_2D L
                 else TEXTURE_OFF L) = true).
  { wf_facts WF.
    destruct (mTextureTarget t =? GL_TEXTURE_EXTERNAL_OES); [assumption|].
    destruct (mTextureTarget t =? GL_TEXTURE_2D); assumption. }
  key_after_setter (TEXTURE_MASK L).
Qed.

Lemma computeKey_setColorMatrix m d :
  computeKey L (setColorMatrix m d) =
  set (computeKey L d) (COLOR_MATRIX_MASK L)
      (if negb (mat4_eqb m mat4_identity)
       then COLOR_MATRIX_ON L else COLOR_MATRIX_OFF L).
Proof. key_after_setter (COLOR_MATRIX_MASK L). Qed.

End KeyOfDescription.

(** X9: the TEXTURE field of a computed key is always one of the three
    enumerators; it is OFF when texturing is disabled, whatever the
    texture object is, and also when texturing is enabled on a target
    that is neither external nor 2D, in which case the key is not
    texturing. *)
Theorem X9_texture_classification (L : KeyLayout) (d : Description) :
  layout_wf L = true ->
  target_known L (computeKey L d) = true /\
  (mTextureEnabled d = false ->
   getTextureTarget L (computeKey L d) = TEXTURE_OFF L) /\
  (mTextureEnabled d = true ->
   mTextureTarget (mTexture d) = GL_TEXTURE_EXTERNAL_OES ->
   getTextureTarget L (computeKey L d) = TEXTURE_EXT L) /\
  (mTextureEnabled d = true ->
   mTextureTarget (mTexture d) = GL_TEXTURE_2D ->
   getTextureTarget L (computeKey L d) = TEXTURE_2D L) /\
  (mTextureEnabled d = true ->
   mTextureTarget (mTexture d) <> GL_TEXTURE_EXTERNAL_OES ->
   mTextureTarget (mTexture d) <> GL_TEXTURE_2D ->
   getTextureTarget L (computeKey L d) = TEXTURE_OFF L /\
   isTexturing L (computeKey L d) = false).
Proof.
  intros WF. unfold target_known, isTexturing. fold (getTextureTarget L (computeKey L d)).
  rewrite (getTextureTarget_computeKey L WF). unfold textureNeeds.
  cbv zeta. repeat split.
  - repeat match goal with |- context [if ?c then _ else _] => destruct c end;
      rewrite Z.eqb_refl, ?orb_true_r; reflexivity.
  - now intros ->.
  - intros -> ->. reflexivity.
  - intros -> ->. reflexivity.
  - destruct (Z.eqb_spec (mTextureTarget (mTexture d)) GL_TEXTURE_EXTERNAL_OES);
      [contradiction|].
    destruct (Z.eqb_spec (mTextureTarget (mTexture d)) GL_TEXTURE_2D);
      [contradiction|].
    now rewrite H.
  - destruct (Z.eqb_spec (mTextureTarget (mTexture d)) GL_TEXTURE_EXTERNAL_OES);
      [contradiction|].
    destruct (Z.eqb_spec (mTextureTarget (mTexture d)) GL_TEXTURE_2D);
      [contradiction|].
    rewrite H. cbn [negb]. now rewrite Z.eqb_refl.
Qed.

Lemma X9_texture_classification_witness :
  target_known sample_layout (computeKey sample_layout blurred7) = true.
Proof.
  destruct (X9_texture_classification sample_layout blurred7 eq_refl) as [H _].
  exact H.
Defined.

(** X10: the accessors of a computed key give back the description:
    plane alpha below one, premultiplied, opaque, colour matrix enabled,
    wide gamut, blur and first app, each as the description has it. *)
Theorem X10_key_reads_back (L : KeyLayout) (d : Description) :
  layout_wf L = true ->
  hasPlaneAlpha L (computeKey L d) = SFltb (mPlaneAlpha d) f32_1 /\
  isPremultiplied L (computeKey L d) = mPremultipliedAlpha d /\
  isOpaque L (computeKey L d) = mOpaque d /\
  hasColorMatrix L (computeKey L d) = mColorMatrixEnabled d /\
  isWideGamut L (computeKey L d) = mIsWideGamut d /\
  isBlur L (computeKey L d) = mBlur d /\
  (firstAppField L (computeKey L d) =? FIRSTAPP_TRUE L) = mFirstApp d.
Proof.
  intros WF.
  rewrite (hasPlaneAlpha_computeKey L WF), (isPremultiplied_computeKey L WF),
    (isOpaque_computeKey L WF), (hasColorMatrix_computeKey L WF),
    (isWideGamut_computeKey L WF), (isBlur_computeKey L WF),
    (firstApp_computeKey L WF).
  repeat split.
Qed.

Lemma X10_key_reads_back_witness :
  isBlur sample_layout (computeKey sample_layout blurred7) = true.
Proof.
  destruct (X10_key_reads_back sample_layout blurred7 eq_refl)
    as (_ & _ & _ & _ & _ & H & _).
  exact H.
Defined.

(** X12: a computed key fits the 32-bit word and has no bit outside the
    eight fields. *)
Theorem X12_key_in_range (L : KeyLayout) (d : Description) :
  layout_wf L = true ->
  0 <= computeKey L d <= UINT32_MAX /\
  Z.land (computeKey L d) (fieldsMask L) = computeKey L d.
Proof.
  intros WF. split.
  - pose proof (mask_ok_range _ (computeKey_mask_ok L WF d)).
    unfold UINT32_MAX. lia.
  - apply Z.eqb_eq, (computeKey_in_fields L WF).
Qed.

Lemma X12_key_in_range_witness :
  0 <= computeKey sample_layout blurred7 <= UINT32_MAX.
Proof.
  destruct (X12_key_in_range sample_layout blurred7 eq_refl) as [H _].
  exact H.
Defined.

(** X13: each setter of a description changes the key in its own field
    only: the key of the updated description is the old key with that
    field set anew.  [setColor] and [setProjectionMatrix] leave the key
    as it is; [disableTexture] sets the TEXTURE field to OFF although the
    texture object stays. *)
Theorem X13_setters_and_key (L : KeyLayout) (d : Description) :
  layout_wf L = true ->
  (forall a, computeKey L (setPlaneAlpha a d) =
     set (computeKey L d) (PLANE_ALPHA_MASK L)
         (if SFltb a f32_1 then PLANE_ALPHA_LT_ONE L else PLANE_ALPHA_EQ_ONE L)) /\
  (forall b, computeKey L (setPremultipliedAlpha b d) =
     set (computeKey L d) (BLEND_MASK L)
         (if b then BLEND_PREMULT L else BLEND_NORMAL L)) /\
  (forall b, computeKey L (setOpaque b d) =
     set (computeKey L d) (OPACITY_MASK L)
         (if b then OPACITY_OPAQUE L else OPACITY_TRANSLUCENT L)) /\
  (forall b, computeKey L (setBlur b d) =
     set (computeKey L d) (BLUR_MASK L) (if b then BLUR_ON L else BLUR_OFF L)) /\
  (forall b, computeKey L (setFirstApp b d) =
     set (computeKey L d) (FIRSTAPP_MASK L)
         (if b then FIRSTAPP_TRUE L else FIRSTAPP_FALSE L)) /\
  (forall b, computeKey L (setWideGamut b d) =
     set (computeKey L d) (WIDE_GAMUT_MASK L)
         (if b then WIDE_GAMUT_ON L else WIDE_GAMUT_OFF L)) /\
  (forall t, computeKey L (setTexture t d) =
     set (computeKey L d) (TEXTURE_MASK L)
         (if mTextureTarget t =? GL_TEXTURE_EXTERNAL_OES then TEXTURE_EXT L
          else if mTextureTarget t =? GL_TEXTURE_2D then TEXTURE_2D L
          else TEXTURE_OFF L)) /\
  (computeKey L (disableTexture d) =
     set (computeKey L d) (TEXTURE_MASK L) (TEXTURE_OFF L) /\
   mTexture (disableTexture d) = mTexture d) /\
  (forall m, computeKey L (setColorMatrix m d) =
     set (computeKey L d) (COLOR_MATRIX_MASK L)
         (if negb (mat4_eqb m mat4_identity)
          then COLOR_MATRIX_ON L else COLOR_MATRIX_OFF L)) /\
  (forall r g b a, computeKey L (setColor r g b a d) = computeKey L d) /\
  (forall m, computeKey L (setProjectionMatrix m d) = computeKey L d).
Proof.
  intros WF.
  repeat split; intros;
    auto using computeKey_setPlaneAlpha, computeKey_setPremultipliedAlpha,
      computeKey_setOpaque, computeKey_setBlur, computeKey_setFirstApp,
      computeKey_setWideGamut, computeKey_setTexture, computeKey_disableTexture,
      computeKey_setColorMatrix.
Qed.

Lemma X13_setters_and_key_witness :
  computeKey sample_layout (setOpaque false blurred7) =
  set (computeKey sample_layout blurred7) 2 0.
Proof.
  destruct (X13_setters_and_key sample_layout blurred7 eq_refl)
    as (_ & _ & H & _).
  exact (H false).
Defined.

(* ================================================================== *)
(** ** The colour matrix *)
(* ================================================================== *)

Lemma SFeqb_zero x : SFeqb x f32_0 = is_zero x.
Proof.
  destruct x as [s|s| |s m e];
    [destruct s | destruct s | | destruct s]; reflexivity.
Qed.

Lemma SFeqb_finite s m e m0 e0 :
  SFeqb (S754_finite s m e) (S754_finite false m0 e0) =
  negb s && ((m =? m0)%positive && (e =? e0)).
Proof.
  unfold SFeqb, SFcompare. destruct s; [reflexivity|]. cbn [negb andb].
  change (Pos.compare_cont Eq m m0) with (Pos.compare m m0).
  destruct (Z.compare_spec e e0) as [-> | H | H].
  - rewrite Z.eqb_refl, andb_true_r.
    destruct (Pos.compare_spec m m0) as [-> | H | H].
    + now rewrite Pos.eqb_refl.
    + symmetry. apply Pos.eqb_neq. lia.
    + symmetry. apply Pos.eqb_neq. lia.
  - replace (e =? e0) with false by (symmetry; apply Z.eqb_neq; lia).
    now rewrite andb_false_r.
  - replace (e =? e0) with false by (symmetry; apply Z.eqb_neq; lia).
    now rewrite andb_false_r.
Qed.

Lemma SFeqb_one x : SFeqb x f32_1 = is_one x.
Proof.
  destruct x as [s|s| |s m e];
    [destruct s; reflexivity | destruct s; reflexivity | reflexivity |].
  unfold f32_1. rewrite SFeqb_finite. unfold is_one. now destruct s.
Qed.

Lemma mat4_eqb_identity m : mat4_eqb m mat4_identity = identity_entries m.
Proof.
  unfold mat4_eqb, vec4_eqb, mat4_identity, identity_entries.
  cbn [col0 col1 col2 col3 vx vy vz vw].
  rewrite !SFeqb_zero, !SFeqb_one. now rewrite !andb_assoc.
Qed.

(** X14: [setColorMatrix] stores the matrix and switches the colour
    matrix off exactly when the matrix has the number one on its
    diagonal and a zero of either sign everywhere else; any other entry,
    a NaN included, switches it on. *)
Theorem X14_color_matrix_flag (m : mat4) (d : Description) :
  getColorMatrix (setColorMatrix m d) = m /\
  mColorMatrixEnabled (setColorMatrix m d) = negb (identity_entries m) /\
  (vx (col0 m) = S754_nan -> mColorMatrixEnabled (setColorMatrix m d) = true).
Proof.
  unfold getColorMatrix, setColorMatrix. cbn [mColorMatrix mColorMatrixEnabled].
  rewrite mat4_eqb_identity. split; [reflexivity | split; [reflexivity|]].
  intros E. unfold identity_entries. now rewrite E.
Qed.

(* ================================================================== *)
(** ** More on the cache *)
(* ================================================================== *)

Section CacheMore.

Variable L : KeyLayout.
Variable glLink : nat -> string -> string -> bool.

(** The object that [generateProgram] builds for a key in a state. *)
Lemma lookupOrGenerate_miss k st :
  valueFor st k = None ->
  lookupOrGenerate L glLink k st =
  (length (programs st),
   {| mCache := <[k := length (programs st)]> (mCache st);
      programs := programs st ++
        [{| prog_needs := k;
            prog_vs := generateVertexShader L k;
            prog_fs := generateFragmentShader L k;
            prog_valid := glLink (length (programs st))
                            (generateVertexShader L k)
                            (generateFragmentShader L k) |}];
      glCalls := glCalls st |}).
Proof. unfold lookupOrGenerate. now intros ->. Qed.

Lemma useProgram_mCache d st :
  mCache (useProgram L glLink d st) =
  mCache (lookupOrGenerate L glLink (computeKey L d) st).2.
Proof.
  rewrite useProgram_unfold. cbv zeta. now destruct (isValid _ _).
Qed.

Lemma useProgram_programs d st :
  programs (useProgram L glLink d st) =
  programs (lookupOrGenerate L glLink (computeKey L d) st).2.
Proof.
  rewrite useProgram_unfold. cbv zeta. now destruct (isValid _ _).
Qed.

Lemma consistent_empty : cache_consistent L glLink emptyCache.
Proof.
  unfold cache_consistent, emptyCache. cbn [mCache programs].
  split; [reflexivity | split].
  - intros k p H. now rewrite lookup_empty in H.
  - intros p prog H. now rewrite lookup_nil in H.
Qed.

Lemma consistent_same st st' :
  mCache st' = mCache st -> programs st' = programs st ->
  cache_consistent L glLink st -> cache_consistent L glLink st'.
Proof. unfold cache_consistent. now intros -> ->. Qed.

Lemma consistent_miss k st :
  valueFor st k = None ->
  cache_consistent L glLink st ->
  cache_consistent L glLink (lookupOrGenerate L glLink k st).2.
Proof.
  intros Hnone (Hsize & Hent & Hobj).
  rewrite (lookupOrGenerate_miss k st Hnone). cbn [snd].
  unfold cache_consistent. cbn [mCache programs]. unfold valueFor in Hnone.
  split; [|split].
  - rewrite map_size_insert_None by assumption.
    rewrite length_app. cbn [length]. lia.
  - intros k' p. destruct (decide (k = k')) as [<- | Hne].
    + rewrite lookup_insert_eq. intros [= <-].
      eexists. split; [apply list_lookup_middle; reflexivity|].
      repeat split.
    + rewrite lookup_insert_ne by assumption. intros H.
      destruct (Hent k' p H) as (prog & Hp & Hrest).
      exists prog. split; [now apply lookup_app_l_Some | exact Hrest].
  - intros p prog H. apply lookup_app_Some in H as [H | [Hge H]].
    + pose proof (Hobj p prog H) as Hc.
      rewrite lookup_insert_ne; [exact Hc | congruence].
    + destruct (p - length (programs st))%nat as [|n] eqn:E; [|now destruct n].
      cbn in H. injection H as <-. cbn [prog_needs].
      rewrite lookup_insert_eq. f_equal. lia.
Qed.

Lemma consistent_lookupOrGenerate k st :
  cache_consistent L glLink st ->
  cache_consistent L glLink (lookupOrGenerate L glLink k st).2.
Proof.
  intros C. destruct (valueFor st k) eqn:E.
  - now rewrite (lookupOrGenerate_hit L glLink k st _ E).
  - now apply consistent_miss.
Qed.

Lemma primeBody_lookup v st :
  primeBody L glLink v st =
  if target_known L v then (lookupOrGenerate L glLink v st).2 else st.
Proof.
  unfold primeBody, target_known, lookupOrGenerate. rewrite set_zero. cbv zeta.
  destruct (getTextureTarget L v =? TEXTURE_OFF L),
    (getTextureTarget L v =? TEXTURE_EXT L),
    (getTextureTarget L v =? TEXTURE_2D L); cbn [negb andb orb];
    try reflexivity; destruct (valueFor st v); reflexivity.
Qed.

Lemma consistent_primeBody v st :
  cache_consistent L glLink st -> cache_consistent L glLink (primeBody L glLink v st).
Proof.
  intros C. rewrite primeBody_lookup.
  destruct (target_known L v); [now apply consistent_lookupOrGenerate | exact C].
Qed.

Lemma consistent_primeLoop fuel : forall v st st',
  primeLoop L glLink fuel v st = Some st' ->
  cache_consistent L glLink st -> cache_consistent L glLink st'.
Proof.
  induction fuel as [|fuel IH]; intros v st st'; cbn.
  - destruct (v <=? keyMask L); [discriminate | now intros [= <-]].
  - destruct (v <=? keyMask L); [|now intros [= <-]].
    intros H C. eapply IH; [exact H | now apply consistent_primeBody].
Qed.

Lemma consistent_call c st st' :
  call L glLink c st = Some st' ->
  cache_consistent L glLink st -> cache_consistent L glLink st'.
Proof.
  destruct c; cbn.
  - apply consistent_primeLoop.
  - intros [= <-] C.
    eapply consistent_same;
      [apply useProgram_mCache | apply useProgram_programs |].
    now apply consistent_lookupOrGenerate.
  - intros [= <-] C. apply (consistent_same st); [| |exact C];
      unfold changeUniform;
      destruct (valueFor st (computeKey L d)); try reflexivity;
      destruct (negb _); try reflexivity; destruct (_ =? _); reflexivity.
Qed.

Lemma consistent_run cs : forall st st',
  run L glLink cs st = Some st' ->
  cache_consistent L glLink st -> cache_consistent L glLink st'.
Proof.
  induction cs as [|c cs IH]; intros st st'; cbn.
  - now intros [= <-].
  - destruct (call L glLink c st) eqn:E; [|discriminate].
    intros H C. eapply IH; [exact H | eapply consistent_call; eauto].
Qed.





Lemma primeBody_keys_known v st k p :
  valueFor (primeBody L glLink v st) k = Some p ->
  valueFor st k = Some p \/ (k = v /\ target_known L v = true).
Proof.
  rewrite primeBody_lookup. destruct (target_known L v) eqn:E; [|auto].
  destruct (valueFor st v) eqn:Ev.
  - rewrite (lookupOrGenerate_hit L glLink v st _ Ev). auto.
  - rewrite (lookupOrGenerate_miss v st Ev). cbn [snd]. unfold valueFor.
    cbn [mCache]. destruct (decide (v = k)) as [<- | Hne]; [auto|].
    rewrite lookup_insert_ne by assumption. auto.
Qed.

Lemma fold_keys_known vs : forall st k p,
  valueFor (foldl (fun st v => primeBody L glLink v st) st vs) k = Some p ->
  is_Some (valueFor st k) \/ (In k vs /\ target_known L k = true).
Proof.
  induction vs as [|w vs IH]; intros st k p; cbn [foldl].
  - eauto.
  - intros H. destruct (IH _ _ _ H) as [[q Hq] | [Hin Hk]].
    + destruct (primeBody_keys_known _ _ _ _ Hq) as [Hs | [-> Hk]];
        [left; eauto | right; split; [now left | exact Hk]].
    + right. split; [now right | exact Hk].
Qed.

End CacheMore.

Lemma target_known_computeKey L d :
  layout_wf L = true -> target_known L (computeKey L d) = true.
Proof.
  intros WF. unfold target_known.
  rewrite (getTextureTarget_computeKey L WF). unfold textureNeeds. cbv zeta.
  repeat match goal with |- context [if ?c then _ else _] => destruct c end;
    rewrite Z.eqb_refl, ?orb_true_r; reflexivity.
Qed.



(** The keys of the cache the constructor leaves. *)
Lemma primed_domain (L : KeyLayout) (glLink : nat -> string -> string -> bool) :
  layout_wf L = true ->
  exists st,
    ProgramCache_ctor L glLink = Some st /\
    forall k, is_Some (valueFor st k) <->
              (0 <= k <= keyMask L /\ target_known L k = true).
Proof.
  intros WF. unfold ProgramCache_ctor. rewrite (primeCache_fold L glLink WF).
  eexists. split; [reflexivity|]. intros k. split.
  - intros [p Hp].
    destruct (fold_keys_known L glLink _ _ _ _ Hp) as [[q Hq] | [Hin Hk]].
    + unfold valueFor, emptyCache in Hq. cbn [mCache] in Hq.
      now rewrite lookup_empty in Hq.
    + apply list_elem_of_In, elem_of_seqZ in Hin. split; [lia | exact Hk].
  - intros [Hr Hk]. apply fold_present; [|exact Hk].
    apply list_elem_of_In, elem_of_seqZ. lia.
Qed.

(** X16: after construction a key is in the cache exactly when it lies
    in [0, keyMask] and its texture target is one of the three
    enumerators; the key whose TEXTURE field holds any other pattern is
    skipped. *)
Theorem X16_primed_keys
    (L : KeyLayout) (glLink : nat -> string -> string -> bool) :
  layout_wf L = true ->
  exists st,
    ProgramCache_ctor L glLink = Some st /\
    forall k, is_Some (valueFor st k) <->
              (0 <= k <= keyMask L /\ target_known L k = true).
Proof. apply primed_domain. Qed.

Lemma X16_primed_keys_witness :
  exists st,
    ProgramCache_ctor sample_layout link_all = Some st /\
    valueFor st 24 = None.
Proof.
  destruct (X16_primed_keys sample_layout link_all eq_refl) as (st & Hc & H).
  exists st. split; [exact Hc|].
  destruct (valueFor st 24) as [p|] eqn:E; [|reflexivity].
  destruct (proj1 (H 24) (ex_intro _ p E)) as [_ Hk]. discriminate Hk.
Defined.

(** X17: in every state reached from the empty cache by calls of the
    entry points, the cache has as many entries as program objects were
    built; every entry points to the object built for its own key from
    the two generated texts, valid exactly if the driver linked them;
    and every object built is the entry of its key. *)
Theorem X17_reachable_states_consistent
    (L : KeyLayout) (glLink : nat -> string -> string -> bool)
    (cs : list Call) (st : ProgramCache) :
  run L glLink cs emptyCache = Some st ->
  size (mCache st) = length (programs st) /\
  (forall k p, valueFor st k = Some p ->
     exists prog, programs st !! p = Some prog /\
       prog_needs prog = k /\
       prog_vs prog = generateVertexShader L k /\
       prog_fs prog = generateFragmentShader L k /\
       prog_valid prog =
         glLink p (generateVertexShader L k) (generateFragmentShader L k)) /\
  (forall (p : nat) prog, programs st !! p = Some prog ->
     valueFor st (prog_needs prog) = Some p).
Proof.
  intros H.
  exact (consistent_run L glLink cs emptyCache st H (consistent_empty L glLink)).
Qed.

Lemma X17_reachable_states_consistent_witness :
  size (mCache (useProgram sample_layout link_all half_alpha
                  (useProgram sample_layout link_all plain emptyCache))) = 2%nat.
Proof.
  destruct (X17_reachable_states_consistent sample_layout link_all
              [CallUseProgram plain; CallUseProgram half_alpha]
              (useProgram sample_layout link_all half_alpha
                 (useProgram sample_layout link_all plain emptyCache))
              eq_refl) as [H _].
  rewrite H. reflexivity.
Defined.

Lemma value_in_zero m : value_in m 0 = true.
Proof. unfold value_in. now rewrite Z.land_0_l. Qed.

(** X18: priming pays off: in the cache left by the constructor,
    [useProgram] on a description without colour matrix, wide gamut,
    blur and first app finds its program and builds nothing, the "off"
    enumerators of these four fields being the zero word. *)
Theorem X18_primed_draw_builds_nothing
    (L : KeyLayout) (glLink : nat -> string -> string -> bool)
    (st : ProgramCache) (d : Description) :
  layout_wf L = true ->
  off_values_zero L = true ->
  ProgramCache_ctor L glLink = Some st ->
  mColorMatrixEnabled d = false -> mIsWideGamut d = false ->
  mBlur d = false -> mFirstApp d = false ->
  is_Some (valueFor st (computeKey L d)) /\
  programs (useProgram L glLink d st) = programs st /\
  mCache (useProgram L glLink d st) = mCache st.
Proof.
  intros WF Z Hc Ecm Ewg Ebl Efa.
  assert (Hin : value_in (keyMask L) (computeKey L d) = true).
  { wf_facts WF. pose proof (textureNeeds_in L WF d).
    unfold off_values_zero in Z. split_andb Z.
    repeat match goal with
           | H : (_ =? 0) = true |- _ => apply Z.eqb_eq in H
           end.
    unfold computeKey. cbv zeta. rewrite Ecm, Ewg, Ebl, Efa.
    repeat match goal with H : _ = 0 |- _ => rewrite H end.
    unfold keyMask.
    repeat apply value_in_set; try apply value_in_zero.
    - apply value_in_lor_r. assumption.
    - apply value_in_lor, value_in_lor_r. auto with keybits.
    - do 3 apply value_in_lor. auto with keybits.
    - do 2 apply value_in_lor. apply value_in_lor_r. auto with keybits. }
  pose proof (mask_ok_range _ (keyMask_ok L WF)) as R.
  unfold value_in in Hin. apply Z.eqb_eq in Hin.
  destruct (subset_le (computeKey L d) (keyMask L) (proj1 R) Hin) as [A B].
  destruct (primed_domain L glLink WF) as (st0 & Hc0 & Hdom).
  rewrite Hc in Hc0. injection Hc0 as <-.
  assert (Hs : is_Some (valueFor st (computeKey L d))).
  { apply Hdom. split; [lia | now apply target_known_computeKey]. }
  split; [exact Hs|]. destruct Hs as [p Hp].
  destruct (useProgram_hit_same L glLink d st p Hp). now split.
Qed.

Lemma X18_primed_draw_builds_nothing_witness :
  exists st,
    ProgramCache_ctor sample_layout link_all = Some st /\
    programs (useProgram sample_layout link_all half_alpha st) = programs st.
Proof.
  destruct (ProgramCache_ctor sample_layout link_all) as [st|] eqn:E;
    [|vm_compute in E; discriminate].
  exists st. split; [reflexivity|].
  destruct (X18_primed_draw_builds_nothing sample_layout link_all st half_alpha
              eq_refl eq_refl E eq_refl eq_refl eq_refl eq_refl) as (_ & H & _).
  exact H.
Defined.

(** X19: [useProgram] touches the cache at the key of its description
    only.  On a hit the entry and the program objects stay as they are;
    on a miss exactly one object is built, from the two texts generated
    for the key and with the validity the driver reports, and the key is
    mapped to it. *)
Theorem X19_useProgram_and_the_cache
    (L : KeyLayout) (glLink : nat -> string -> string -> bool)
    (d : Description) (st : ProgramCache) :
  (forall k, k <> computeKey L d ->
     valueFor (useProgram L glLink d st) k = valueFor st k) /\
  (forall p, valueFor st (computeKey L d) = Some p ->
     valueFor (useProgram L glLink d st) (computeKey L d) = Some p /\
     programs (useProgram L glLink d st) = programs st) /\
  (valueFor st (computeKey L d) = None ->
     valueFor (useProgram L glLink d st) (computeKey L d) =
       Some (length (programs st)) /\
     programs (useProgram L glLink d st) =
       programs st ++
       [{| prog_needs := computeKey L d;
           prog_vs := generateVertexShader L (computeKey L d);
           prog_fs := generateFragmentShader L (computeKey L d);
           prog_valid := glLink (length (programs st))
                           (generateVertexShader L (computeKey L d))
                           (generateFragmentShader L (computeKey L d)) |}]).
Proof.
  unfold valueFor. rewrite useProgram_mCache, useProgram_programs.
  split; [|split].
  - intros k Hne. destruct (valueFor st (computeKey L d)) eqn:E.
    + now rewrite (lookupOrGenerate_hit L glLink _ st _ E).
    + rewrite (lookupOrGenerate_miss L glLink _ st E). cbn [snd mCache].
      now rewrite lookup_insert_ne by congruence.
  - intros p Hp.
    now rewrite (lookupOrGenerate_hit L glLink _ st p Hp).
  - intros Hn.
    rewrite (lookupOrGenerate_miss L glLink _ st Hn). cbn [snd mCache programs].
    now rewrite lookup_insert_eq.
Qed.



(** X11: from an empty cache, two draws build one program when the two
    descriptions have the same shape, and two programs when they differ
    in texture kind, in plane alpha being below one, or in one of the six
    flags. *)
Theorem X11_programs_per_shape
    (L : KeyLayout) (glLink : nat -> string -> string -> bool)
    (d1 d2 : Description) :
  layout_wf L = true ->
  (shapeOf d1 = shapeOf d2 ->
   length (programs (useProgram L glLink d2 (useProgram L glLink d1 emptyCache))) = 1%nat) /\
  (shapeOf d1 <> shapeOf d2 ->
   length (programs (useProgram L glLink d2 (useProgram L glLink d1 emptyCache))) = 2%nat).
Proof.
  intros WF.
  assert (H1 : lookupOrGenerate L glLink (computeKey L d1) emptyCache =
               (0%nat, (lookupOrGenerate L glLink (computeKey L d1) emptyCache).2)).
  { now rewrite (lookupOrGenerate_miss L glLink _ emptyCache) by apply lookup_empty. }
  assert (M1 : mCache (useProgram L glLink d1 emptyCache) =
               <[computeKey L d1 := 0%nat]> ∅).
  { rewrite useProgram_mCache.
    now rewrite (lookupOrGenerate_miss L glLink _ emptyCache) by apply lookup_empty. }
  assert (P1 : length (programs (useProgram L glLink d1 emptyCache)) = 1%nat).
  { rewrite useProgram_programs.
    now rewrite (lookupOrGenerate_miss L glLink _ emptyCache) by apply lookup_empty. }
  rewrite useProgram_programs. split.
  - intros E. apply (computeKey_shape L WF) in E.
    rewrite (lookupOrGenerate_hit L glLink _ _ 0%nat); [exact P1|].
    unfold valueFor. rewrite M1, E. apply lookup_insert_eq.
  - intros N. rewrite lookupOrGenerate_miss.
    + cbn [snd programs]. rewrite length_app, P1. reflexivity.
    + unfold valueFor. rewrite M1, lookup_insert_ne; [apply lookup_empty|].
      intros E. apply N, (computeKey_shape L WF), E.
Qed.

Lemma X11_programs_per_shape_witness :
  length (programs (useProgram sample_layout link_all half_alpha
                      (useProgram sample_layout link_all plain emptyCache))) = 2%nat.
Proof.
  destruct (X11_programs_per_shape sample_layout link_all plain half_alpha eq_refl)
    as [_ H].
  apply H. discriminate.
Defined.
